(** * Snek: the game-state core of the Snake game (App.tsx)

    A shallow embedding of the pure helpers, the speed curve, the
    [gameTick] transition and the [onKeyDown] handler of the [App]
    component, of the delay it hands to [useInterval] and of the grid and
    backdrop it renders, followed by the properties of the specification
    and by further properties of the code.  The [useInterval] hook itself
    runs on React's effect scheduler and on the browser's timers; of it only
    the rule that no tick happens under a [null] delay is used.

    Coordinates are JavaScript numbers that only ever hold small integers;
    they are modelled as [Z].  [Math.random()] is modelled as an explicit
    argument, one per call, passed in the order in which the source draws
    them.

    The two places where the source computes with fractions,
    [getRandomNumberFromRange] and [getGameSpeed], are embedded twice: with
    exact arithmetic over [Q], which is what the transition system uses,
    and with IEEE 754 binary64 arithmetic (the [spec_float] operations of
    the standard library at precision 53), under the names ending in
    [_b64].  The two are related below: both kinds of draw yield the same
    set of coordinates, and both speed curves agree on all lengths up to
    400. *)

From Stdlib Require Import ZArith QArith Qround List String Bool Lia Lqa.
From Stdlib Require Import Permutation.
From Stdlib Require Import Floats.SpecFloat.
Import ListNotations.

Open Scope Z_scope.

(** ** Constants and data types *)

Definition gridRows : Z := 20.
Definition gridColumns : Z := 20.

Inductive GameState : Type := Playing | Win | Loss.

Inductive Direction : Type := North | South | West | East.

Record Coordinate : Type := mkCoordinate { x : Z; y : Z }.

Definition GameState_eqb (a b : GameState) : bool :=
  match a, b with
  | Playing, Playing | Win, Win | Loss, Loss => true
  | _, _ => false
  end.

Definition Direction_eqb (a b : Direction) : bool :=
  match a, b with
  | North, North | South, South | West, West | East, East => true
  | _, _ => false
  end.

(** ** Geometry helpers *)

(** The outcome of one call of [Math.random()]. *)
Definition unitInterval (r : Q) : Prop := (0 <= r /\ r < 1)%Q.

(** [Math.floor(Math.random() * (max - min + 1) + min)], with [r] the value
    returned by [Math.random()]. *)
Definition getRandomNumberFromRange (min max : Z) (r : Q) : Z :=
  Qfloor (r * inject_Z (max - min + 1) + inject_Z min).

(** Two draws, the one for [x] first. *)
Definition getRandomCoordinate (rx ry : Q) : Coordinate :=
  {| x := getRandomNumberFromRange 0 (gridRows - 1) rx;
     y := getRandomNumberFromRange 0 (gridColumns - 1) ry |}.

(** [~~(a / 2)]: the double bitwise negation truncates the quotient
    towards zero. *)
Definition getCenterCoordinate : Coordinate :=
  {| x := Z.quot gridRows 2; y := Z.quot gridColumns 2 |}.

Definition getNextCoordinate (current : Coordinate) (direction : Direction)
  : Coordinate :=
  match direction with
  | North => {| x := x current; y := y current - 1 |}
  | South => {| x := x current; y := y current + 1 |}
  | West => {| x := x current - 1; y := y current |}
  | East => {| x := x current + 1; y := y current |}
  end.

Definition isSameCoordinate (a b : Coordinate) : bool :=
  (x a =? x b) && (y a =? y b).

Definition isOutOfBounds (c : Coordinate) : bool :=
  (x c <? 0) || (x c >=? gridColumns) || (y c <? 0) || (y c >=? gridRows).

(** ** Speed curve *)

Definition Qltb (a b : Q) : bool := negb (Qle_bool b a).

Definition getGameSpeed (snakeLength : nat) : Z :=
  let gridCells := gridRows * gridColumns in
  let percentageCompleted :=
    (inject_Z (Z.of_nat snakeLength) / inject_Z gridCells * 100)%Q in
  if Qltb percentageCompleted 5 then 200
  else if Qltb percentageCompleted 15 then 180
  else if Qltb percentageCompleted 30 then 155
  else if Qltb percentageCompleted 50 then 125
  else if Qltb percentageCompleted 75 then 90
  else 50.

(** ** The state of the component and its setters *)

Record App : Type := mkApp {
  gameState : GameState;
  currentDirection : Direction;
  lastDirection : Direction;
  snake : list Coordinate;
  food : Coordinate
}.

Definition setGameState (v : GameState) (s : App) : App :=
  mkApp v (currentDirection s) (lastDirection s) (snake s) (food s).

Definition setCurrentDirection (v : Direction) (s : App) : App :=
  mkApp (gameState s) v (lastDirection s) (snake s) (food s).

Definition setLastDirection (v : Direction) (s : App) : App :=
  mkApp (gameState s) (currentDirection s) v (snake s) (food s).

Definition setSnake (v : list Coordinate) (s : App) : App :=
  mkApp (gameState s) (currentDirection s) (lastDirection s) v (food s).

Definition setFood (v : Coordinate) (s : App) : App :=
  mkApp (gameState s) (currentDirection s) (lastDirection s) (snake s) v.

(** The values given to [useState] on the first render. *)
Definition initialState (rx ry : Q) : App :=
  {| gameState := Playing;
     currentDirection := East;
     lastDirection := East;
     snake := [getCenterCoordinate];
     food := getRandomCoordinate rx ry |}.

(** ** gameTick

    The callback reads [currentDirection], [food] and [snake] of the state
    it closes over and queues its updates.  On an empty snake [snake[0]] is
    [undefined] and [getNextCoordinate] raises a [TypeError]: [None]. *)
Definition gameTick (s : App) (rx ry : Q) : option App :=
  match snake s with
  | [] => None
  | head :: _ =>
      let s1 := setLastDirection (currentDirection s) s in
      let nextCoordinate := getNextCoordinate head (currentDirection s) in
      if isOutOfBounds nextCoordinate then
        Some (setGameState Loss s1)
      else if existsb (fun c => isSameCoordinate c nextCoordinate) (snake s) then
        Some (setGameState Loss s1)
      else if isSameCoordinate (food s) nextCoordinate then
        Some (setSnake ({| x := x (food s); y := y (food s) |} :: snake s)
                (setFood (getRandomCoordinate rx ry) s1))
      else
        Some (setSnake
                (nextCoordinate :: firstn (List.length (snake s) - 1) (snake s)) s1)
  end.

(** ** onKeyDown

    [code] is the [code] of the keyboard event; the two draws are used by
    the restart only. *)
Definition onKeyDown (s : App) (code : string) (rx ry : Q) : App :=
  if (code =? "Space")%string && negb (GameState_eqb (gameState s) Playing) then
    setFood (getRandomCoordinate rx ry)
      (setSnake [getCenterCoordinate]
        (setLastDirection East
          (setCurrentDirection East
            (setGameState Playing s))))
  else if (code =? "ArrowUp")%string
          && negb (Direction_eqb (lastDirection s) South) then
    setCurrentDirection North s
  else if (code =? "ArrowDown")%string
          && negb (Direction_eqb (lastDirection s) North) then
    setCurrentDirection South s
  else if (code =? "ArrowLeft")%string
          && negb (Direction_eqb (lastDirection s) East) then
    setCurrentDirection West s
  else if (code =? "ArrowRight")%string
          && negb (Direction_eqb (lastDirection s) West) then
    setCurrentDirection East s
  else s.

(** ** The transition system

    [useInterval] is given the delay [null] unless the status is [Playing],
    so ticks happen in [Playing] states only; key events happen in any
    state. *)
Inductive step : App -> App -> Prop :=
| step_tick (s s' : App) (rx ry : Q) :
    gameState s = Playing ->
    unitInterval rx -> unitInterval ry ->
    gameTick s rx ry = Some s' ->
    step s s'
| step_key (s : App) (code : string) (rx ry : Q) :
    unitInterval rx -> unitInterval ry ->
    step s (onKeyDown s code rx ry).

Inductive reachable : App -> Prop :=
| reachable_init (rx ry : Q) :
    unitInterval rx -> unitInterval ry ->
    reachable (initialState rx ry)
| reachable_step (s s' : App) :
    reachable s -> step s s' -> reachable s'.

(** ** The driver and the rendering

    What the component hands to [useInterval] and to the grid of boxes. *)

(** The delay given to [useInterval]: [None] is [null]. *)
Definition intervalDelay (s : App) : option Z :=
  if GameState_eqb (gameState s) Playing
  then Some (getGameSpeed (List.length (snake s)))
  else None.

(** [[...Array(n)].map((_, index) => ...)] runs over the indices below [n]. *)
Definition indices (n : Z) : list Z := map Z.of_nat (seq 0 (Z.to_nat n)).

(** The [backgroundColor] of the box at [columnIndex], [rowIndex]:
    [snake.find(...)] is an object, hence truthy, when it finds a segment. *)
Definition backgroundColor (s : App) (columnIndex rowIndex : Z) : string :=
  let cell := {| x := columnIndex; y := rowIndex |} in
  match find (fun c => isSameCoordinate c cell) (snake s) with
  | Some _ => "black"%string
  | None => (if isSameCoordinate (food s) cell then "red" else "white")%string
  end.

(** The rows of boxes, top to bottom, each from left to right. *)
Definition renderGrid (s : App) : list (list string) :=
  map (fun rowIndex =>
         map (fun columnIndex => backgroundColor s columnIndex rowIndex)
             (indices gridColumns))
      (indices gridRows).

(** The backdrop, shown when the status is not [Playing]: its title and the
    points, [snake.length - 1]. *)
Definition overlay (s : App) : option (string * Z) :=
  if negb (GameState_eqb (gameState s) Playing) then
    Some ((if GameState_eqb (gameState s) Win then "You won!" else "You lost!")
            %string,
          Z.of_nat (List.length (snake s)) - 1)
  else None.

(** ** Evaluation in binary64

    A JavaScript number is a [spec_float] with [prec = 53] and
    [emax = 1024]. *)

Definition b64_of_Z (z : Z) : spec_float := binary_normalize 53 1024 z 0 false.

(** [Math.floor] of a number, as an integer; infinities and NaN have
    none. *)
Definition Math_floor (f : spec_float) : option Z :=
  match f with
  | S754_zero _ => Some 0
  | S754_finite s m e =>
      let n := if s then Z.neg m else Z.pos m in
      Some (if 0 <=? e then n * 2 ^ e else n / 2 ^ (- e))
  | S754_infinity _ | S754_nan => None
  end.

(** The outcome of one call of [Math.random()]: a binary64 number [r] with
    [0 <= r < 1]. *)
Definition unitInterval_b64 (r : spec_float) : Prop :=
  valid_binary 53 1024 r = true
  /\ SFleb (S754_zero false) r = true
  /\ SFltb r (b64_of_Z 1) = true.

Definition getRandomNumberFromRange_b64 (min max : Z) (r : spec_float)
  : option Z :=
  Math_floor
    (SFadd 53 1024 (SFmul 53 1024 r (b64_of_Z (max - min + 1))) (b64_of_Z min)).

(** The coordinate is an object of two numbers; it has integer components
    when both floors have. *)
Definition getRandomCoordinate_b64 (rx ry : spec_float) : option Coordinate :=
  match getRandomNumberFromRange_b64 0 (gridRows - 1) rx,
        getRandomNumberFromRange_b64 0 (gridColumns - 1) ry with
  | Some a, Some b => Some {| x := a; y := b |}
  | _, _ => None
  end.

Definition getGameSpeed_b64 (snakeLength : nat) : Z :=
  let gridCells := b64_of_Z (gridRows * gridColumns) in
  let percentageCompleted :=
    SFmul 53 1024
      (SFdiv 53 1024 (b64_of_Z (Z.of_nat snakeLength)) gridCells)
      (b64_of_Z 100) in
  if SFltb percentageCompleted (b64_of_Z 5) then 200
  else if SFltb percentageCompleted (b64_of_Z 15) then 180
  else if SFltb percentageCompleted (b64_of_Z 30) then 155
  else if SFltb percentageCompleted (b64_of_Z 50) then 125
  else if SFltb percentageCompleted (b64_of_Z 75) then 90
  else 50.

(** A binary64 draw that lands in cell [k] of a row of 20: the centre
    [(2 k + 1) / 40] of the interval of that cell. *)
Definition drawFor (k : Z) : spec_float :=
  SFdiv 53 1024 (b64_of_Z (2 * k + 1)) (b64_of_Z 40).

(** Twice the mantissa of a shift record plus its round bit. *)
Definition shr_g (mrs : shr_record) : Z := 2 * shr_m mrs + Z.b2z (shr_r mrs).

(** The exponent function of binary64. *)
Definition fexp64 (z : Z) : Z := Z.max (z - 53) (-1074).

(** ** Vocabulary of the properties *)

Definition Coordinate_eq_dec (a b : Coordinate) : {a = b} + {a <> b}.
Proof. decide equality; apply Z.eq_dec. Defined.

(** A coordinate on the 20 x 20 grid. *)
Definition inGrid (c : Coordinate) : Prop :=
  0 <= x c < gridColumns /\ 0 <= y c < gridRows.

(** The snake invariant.

    The segments are pairwise distinct, all on the grid, and there is at
    least one.  The bound on the length follows by counting the cells of
    the grid, listed in [gridCellsList]. *)

Definition snakeInv (s : App) : Prop :=
  NoDup (snake s) /\ Forall inGrid (snake s) /\ snake s <> [].

Definition gridCellsList : list Coordinate :=
  map (fun p => {| x := Z.of_nat (fst p); y := Z.of_nat (snd p) |})
      (list_prod (seq 0 (Z.to_nat gridColumns)) (seq 0 (Z.to_nat gridRows))).

(** The key table of the input handler.

    The direction an arrow key asks for, and the direction whose commitment
    on the last tick makes the handler skip it. *)

Definition keyDirection (code : string) : option Direction :=
  if (code =? "ArrowUp")%string then Some North
  else if (code =? "ArrowDown")%string then Some South
  else if (code =? "ArrowLeft")%string then Some West
  else if (code =? "ArrowRight")%string then Some East
  else None.

Definition reverse (d : Direction) : Direction :=
  match d with
  | North => South
  | South => North
  | West => East
  | East => West
  end.

(** Two coordinates one step apart, and a snake whose consecutive segments
    are. *)
Definition adjacentb (a b : Coordinate) : bool :=
  Z.abs (x a - x b) + Z.abs (y a - y b) =? 1.

Fixpoint connectedb (l : list Coordinate) : bool :=
  match l with
  | a :: (b :: _) as t => adjacentb a b && connectedb t
  | _ => true
  end.

(** The branch conditions of the two handlers: the tick that captures the
    food, and the key event that restarts the game. *)
Definition captures (s : App) : bool :=
  match snake s with
  | [] => false
  | head :: _ =>
      let nextCoordinate := getNextCoordinate head (currentDirection s) in
      negb (isOutOfBounds nextCoordinate)
      && negb (existsb (fun c => isSameCoordinate c nextCoordinate) (snake s))
      && isSameCoordinate (food s) nextCoordinate
  end.

Definition restarts (s : App) (code : string) : bool :=
  (code =? "Space")%string && negb (GameState_eqb (gameState s) Playing).

(** [played s n]: the state [s] is reached with [n] foods captured since the
    game was last started. *)
Inductive played : App -> nat -> Prop :=
| played_init (rx ry : Q) :
    unitInterval rx -> unitInterval ry ->
    played (initialState rx ry) 0
| played_tick (s s' : App) (n : nat) (rx ry : Q) :
    played s n ->
    gameState s = Playing ->
    unitInterval rx -> unitInterval ry ->
    gameTick s rx ry = Some s' ->
    played s' (if captures s then S n else n)
| played_key (s : App) (n : nat) (code : string) (rx ry : Q) :
    played s n ->
    unitInterval rx -> unitInterval ry ->
    played (onKeyDown s code rx ry) (if restarts s code then 0%nat else n).

(** The direction invariant: currentDirection is not the reverse of
    lastDirection, and while the game is played lastDirection is the
    direction in which the snake last moved. *)
Definition directionInv (s : App) : Prop :=
  currentDirection s <> reverse (lastDirection s)
  /\ (gameState s = Playing ->
      forall (head neck : Coordinate) (tl : list Coordinate),
        snake s = head :: neck :: tl ->
        head = getNextCoordinate neck (lastDirection s)).

(** The coordinates of the boxes of [renderGrid], in the order of
    rendering. *)
Definition renderedCells : list Coordinate :=
  flat_map (fun rowIndex =>
              map (fun columnIndex => {| x := columnIndex; y := rowIndex |})
                  (indices gridColumns))
           (indices gridRows).

(** The number of boxes of a colour. *)
Definition countColor (color : string) (s : App) : nat :=
  count_occ string_dec (List.concat (renderGrid s)) color.

(** ** Basic facts about the helpers *)

Lemma isSameCoordinate_true (a b : Coordinate) :
  isSameCoordinate a b = true <-> a = b.
Proof.
  unfold isSameCoordinate. rewrite andb_true_iff, !Z.eqb_eq.
  destruct a as [ax ay], b as [bx b_y]; simpl. split.
  - intros [-> ->]. reflexivity.
  - intros H. injection H as -> ->. split; reflexivity.
Qed.

Lemma isSameCoordinate_false (a b : Coordinate) :
  isSameCoordinate a b = false <-> a <> b.
Proof.
  rewrite <- isSameCoordinate_true. destruct (isSameCoordinate a b).
  - split; [discriminate | intros H; contradiction H; reflexivity].
  - split; [discriminate | reflexivity].
Qed.

Lemma Coordinate_eta (c : Coordinate) : {| x := x c; y := y c |} = c.
Proof. destruct c; reflexivity. Qed.

(** [snake.some((c) => isSameCoordinate(c, n))] is membership of [n]. *)
Lemma some_isSameCoordinate_true (n : Coordinate) (l : list Coordinate) :
  existsb (fun c => isSameCoordinate c n) l = true <-> In n l.
Proof.
  rewrite existsb_exists. split.
  - intros [c [Hin Hc]]. apply isSameCoordinate_true in Hc. now subst c.
  - intros Hin. exists n. split; [assumption | now apply isSameCoordinate_true].
Qed.

Lemma some_isSameCoordinate_false (n : Coordinate) (l : list Coordinate) :
  existsb (fun c => isSameCoordinate c n) l = false <-> ~ In n l.
Proof.
  rewrite <- some_isSameCoordinate_true.
  destruct (existsb _ l); split; try discriminate; try reflexivity.
  intros H; contradiction H; reflexivity.
Qed.

Lemma isOutOfBounds_false (c : Coordinate) :
  isOutOfBounds c = false <-> inGrid c.
Proof.
  unfold isOutOfBounds, inGrid. rewrite !orb_false_iff, !Z.ltb_ge, !Z.geb_leb, !Z.leb_gt.
  lia.
Qed.

Lemma isOutOfBounds_true (c : Coordinate) :
  isOutOfBounds c = true <-> ~ inGrid c.
Proof.
  rewrite <- isOutOfBounds_false. destruct (isOutOfBounds c); split;
    try discriminate; try reflexivity; intros H; try contradiction H; reflexivity.
Qed.

(** ** The random helpers stay on the grid *)

Lemma getRandomNumberFromRange_bounds (n : Z) (r : Q) :
  0 <= n -> unitInterval r ->
  0 <= getRandomNumberFromRange 0 n r <= n.
Proof.
  intros Hn [H0 H1]. unfold getRandomNumberFromRange.
  rewrite Z.sub_0_r.
  assert (Hpos : (0 < inject_Z (n + 1))%Q).
  { change 0%Q with (inject_Z 0). rewrite <- Zlt_Qlt. lia. }
  split.
  - change 0 with (Qfloor (inject_Z 0)) at 1. apply Qfloor_resp_le.
    rewrite Qplus_0_r. apply Qmult_le_0_compat; [assumption | now apply Qlt_le_weak].
  - assert (Hlt : (r * inject_Z (n + 1) + inject_Z 0 < inject_Z (n + 1))%Q).
    { rewrite Qplus_0_r. rewrite <- (Qmult_1_l (inject_Z (n + 1))) at 2.
      apply Qmult_lt_compat_r; assumption. }
    pose proof (Qfloor_le (r * inject_Z (n + 1) + inject_Z 0)) as Hfl.
    pose proof (Qle_lt_trans _ _ _ Hfl Hlt) as Hz.
    rewrite <- Zlt_Qlt in Hz. lia.
Qed.

(** Every cell of a row is hit by some draw. *)
Lemma getRandomNumberFromRange_hit (n k : Z) :
  0 <= k <= n ->
  getRandomNumberFromRange 0 n (k # Z.to_pos (n + 1)) = k
  /\ unitInterval (k # Z.to_pos (n + 1)).
Proof.
  intros Hk. split.
  - unfold getRandomNumberFromRange. rewrite Z.sub_0_r.
    assert (E : (k # Z.to_pos (n + 1)) * inject_Z (n + 1) + inject_Z 0 == inject_Z k).
    { unfold Qeq, Qmult, Qplus, inject_Z; simpl.
      rewrite !Pos.mul_1_r, Z2Pos.id by lia. ring. }
    rewrite E. apply Qfloor_Z.
  - unfold unitInterval, Qle, Qlt; simpl. rewrite Z2Pos.id by lia. lia.
Qed.

Lemma getRandomCoordinate_inGrid (rx ry : Q) :
  unitInterval rx -> unitInterval ry -> inGrid (getRandomCoordinate rx ry).
Proof.
  intros Hx Hy. unfold inGrid, getRandomCoordinate; simpl.
  assert (H19 : 0 <= 19) by lia.
  pose proof (getRandomNumberFromRange_bounds 19 rx H19 Hx) as Bx.
  pose proof (getRandomNumberFromRange_bounds 19 ry H19 Hy) as By.
  unfold gridRows, gridColumns. lia.
Qed.

Lemma getRandomCoordinate_hit (c : Coordinate) :
  inGrid c ->
  exists rx ry, unitInterval rx /\ unitInterval ry
                /\ getRandomCoordinate rx ry = c.
Proof.
  intros [Hx Hy]. unfold gridRows, gridColumns in *.
  destruct (getRandomNumberFromRange_hit 19 (x c)) as [Ex Ux]; [lia |].
  destruct (getRandomNumberFromRange_hit 19 (y c)) as [Ey Uy]; [lia |].
  exists (x c # Z.to_pos (19 + 1)), (y c # Z.to_pos (19 + 1)).
  split; [assumption | split; [assumption |]].
  unfold getRandomCoordinate, gridRows, gridColumns.
  change (20 - 1) with 19. rewrite Ex, Ey. apply Coordinate_eta.
Qed.

(** ** Prefixes of a snake *)

Lemma firstn_In {A : Type} (n : nat) (l : list A) (a : A) :
  In a (firstn n l) -> In a l.
Proof.
  intros H. rewrite <- (firstn_skipn n l). apply in_or_app. now left.
Qed.

Lemma firstn_NoDup {A : Type} (n : nat) (l : list A) :
  NoDup l -> NoDup (firstn n l).
Proof.
  intros H. rewrite <- (firstn_skipn n l) in H.
  eapply NoDup_app_remove_r. exact H.
Qed.

Lemma firstn_Forall {A : Type} (P : A -> Prop) (n : nat) (l : list A) :
  Forall P l -> Forall P (firstn n l).
Proof.
  rewrite !Forall_forall. intros H a Ha. apply H. eapply firstn_In. exact Ha.
Qed.

(** [snake.slice(0, snake.length - 1)] drops the last segment. *)
Lemma slice_removelast {A : Type} (l : list A) :
  firstn (List.length l - 1) l = removelast l.
Proof.
  rewrite removelast_firstn_len. f_equal. lia.
Qed.

Lemma slice_length {A : Type} (a : A) (l : list A) :
  List.length (firstn (List.length (a :: l) - 1) (a :: l)) = List.length l.
Proof.
  rewrite length_firstn. simpl List.length. lia.
Qed.

(** ** The four outcomes of gameTick

    [s] is a state whose snake has a head; [next] is the coordinate one step
    from the head in the current direction. *)
Section GameTickCases.

Variable s : App.
Variables rx ry : Q.
Variable head : Coordinate.
Variable tl : list Coordinate.
Hypothesis Hsnake : snake s = head :: tl.

Let next : Coordinate := getNextCoordinate head (currentDirection s).

Lemma gameTick_outOfBounds :
  isOutOfBounds next = true ->
  gameTick s rx ry
  = Some (mkApp Loss (currentDirection s) (currentDirection s)
            (snake s) (food s)).
Proof.
  intros Hout. unfold gameTick. rewrite Hsnake. fold next.
  rewrite Hout. unfold setGameState, setLastDirection; simpl.
  rewrite Hsnake. reflexivity.
Qed.

Lemma gameTick_selfCollision :
  isOutOfBounds next = false -> In next (snake s) ->
  gameTick s rx ry
  = Some (mkApp Loss (currentDirection s) (currentDirection s)
            (snake s) (food s)).
Proof.
  intros Hin Hmem. apply some_isSameCoordinate_true in Hmem.
  unfold gameTick. rewrite Hsnake in *. fold next.
  rewrite Hin, Hmem. unfold setGameState, setLastDirection; simpl.
  rewrite Hsnake. reflexivity.
Qed.

Lemma gameTick_foodCapture :
  isOutOfBounds next = false -> ~ In next (snake s) -> food s = next ->
  gameTick s rx ry
  = Some (mkApp (gameState s) (currentDirection s) (currentDirection s)
            (food s :: snake s) (getRandomCoordinate rx ry)).
Proof.
  intros Hin Hmem Hfood. apply some_isSameCoordinate_false in Hmem.
  assert (Hsame : isSameCoordinate (food s) next = true)
    by now apply isSameCoordinate_true.
  unfold gameTick. rewrite Hsnake in *. fold next.
  rewrite Hin, Hmem, Hsame. unfold setSnake, setFood; simpl.
  rewrite Coordinate_eta. reflexivity.
Qed.

Lemma gameTick_move :
  isOutOfBounds next = false -> ~ In next (snake s) -> food s <> next ->
  gameTick s rx ry
  = Some (mkApp (gameState s) (currentDirection s) (currentDirection s)
            (next :: removelast (snake s)) (food s)).
Proof.
  intros Hin Hmem Hfood. apply some_isSameCoordinate_false in Hmem.
  apply isSameCoordinate_false in Hfood.
  unfold gameTick. rewrite Hsnake in *. fold next.
  rewrite Hin, Hmem, Hfood. unfold setSnake; simpl gameState; simpl snake.
  rewrite slice_removelast. reflexivity.
Qed.

End GameTickCases.

(** gameTick returns exactly when the snake has a head. *)
Lemma gameTick_Some (s : App) (rx ry : Q) :
  snake s <> [] -> exists s', gameTick s rx ry = Some s'.
Proof.
  intros Hne. unfold gameTick. destruct (snake s) as [| head tl]; [congruence |].
  cbv zeta.
  destruct (isOutOfBounds _); [eauto |].
  destruct (existsb _ _); [eauto |].
  destruct (isSameCoordinate _ _); eauto.
Qed.

(** ** The snake invariant is inductive *)

Lemma gridCellsList_length : List.length gridCellsList = 400%nat.
Proof. reflexivity. Qed.

Lemma inGrid_gridCellsList (c : Coordinate) :
  inGrid c -> In c gridCellsList.
Proof.
  intros [Hx Hy]. unfold gridCellsList. apply in_map_iff.
  exists (Z.to_nat (x c), Z.to_nat (y c)). split.
  - simpl. rewrite !Z2Nat.id by lia. apply Coordinate_eta.
  - apply in_prod; apply in_seq; unfold gridColumns, gridRows in *; lia.
Qed.

Lemma snakeInv_length (s : App) :
  snakeInv s -> (1 <= List.length (snake s) <= 400)%nat.
Proof.
  intros (Hnd & Hgrid & Hne). split.
  - destruct (snake s); [congruence | simpl; lia].
  - rewrite <- gridCellsList_length. apply NoDup_incl_length; [assumption |].
    intros c Hc. apply inGrid_gridCellsList.
    rewrite Forall_forall in Hgrid. now apply Hgrid.
Qed.

Lemma snakeInv_initialState (rx ry : Q) : snakeInv (initialState rx ry).
Proof.
  unfold snakeInv, initialState; simpl. repeat split.
  - constructor; [intros [] | constructor].
  - repeat constructor; vm_compute; congruence.
  - discriminate.
Qed.

Lemma snakeInv_gameTick (s s' : App) (rx ry : Q) :
  snakeInv s -> gameTick s rx ry = Some s' -> snakeInv s'.
Proof.
  intros (Hnd & Hgrid & Hne) Htick.
  destruct (snake s) as [| head tl] eqn:Hsnake; [congruence |].
  set (next := getNextCoordinate head (currentDirection s)).
  destruct (isOutOfBounds next) eqn:Hout.
  - rewrite (gameTick_outOfBounds s rx ry head tl Hsnake Hout) in Htick.
    injection Htick as <-. unfold snakeInv; simpl. now rewrite Hsnake.
  - destruct (in_dec Coordinate_eq_dec next (snake s)) as [Hmem | Hmem].
    + rewrite (gameTick_selfCollision s rx ry head tl Hsnake Hout Hmem) in Htick.
      injection Htick as <-. unfold snakeInv; simpl. now rewrite Hsnake.
    + assert (Hnext : inGrid next) by now apply isOutOfBounds_false.
      rewrite <- Hsnake in Hnd, Hgrid.
      destruct (isSameCoordinate (food s) next) eqn:Hfood.
      * apply isSameCoordinate_true in Hfood.
        rewrite (gameTick_foodCapture s rx ry head tl Hsnake Hout Hmem Hfood)
          in Htick.
        injection Htick as <-. unfold snakeInv; simpl. rewrite Hfood.
        repeat split; [now constructor | now constructor | discriminate].
      * apply isSameCoordinate_false in Hfood.
        rewrite (gameTick_move s rx ry head tl Hsnake Hout Hmem Hfood) in Htick.
        injection Htick as <-. unfold snakeInv; simpl.
        rewrite <- slice_removelast.
        repeat split.
        -- constructor; [| now apply firstn_NoDup].
           intros Hc. apply Hmem. eapply firstn_In. exact Hc.
        -- constructor; [assumption | now apply firstn_Forall].
        -- discriminate.
Qed.

Lemma onKeyDown_cases (s : App) (code : string) (rx ry : Q) :
  onKeyDown s code rx ry
  = mkApp Playing East East [getCenterCoordinate] (getRandomCoordinate rx ry)
    /\ gameState s <> Playing /\ code = "Space"%string
  \/ exists d, onKeyDown s code rx ry = setCurrentDirection d s
  \/ onKeyDown s code rx ry = s.
Proof.
  unfold onKeyDown.
  destruct ((code =? "Space")%string && _) eqn:E1.
  { left. apply andb_true_iff in E1. destruct E1 as [Ec Eg].
    apply String.eqb_eq in Ec. repeat split; [| assumption].
    intros Hp. rewrite Hp in Eg. discriminate. }
  right.
  repeat match goal with
         | |- context [if ?b then _ else _] => destruct b
         end;
    first [ exists North; left; reflexivity | exists South; left; reflexivity
          | exists West; left; reflexivity | exists East; left; reflexivity
          | exists North; right; reflexivity ].
Qed.

Lemma snakeInv_onKeyDown (s : App) (code : string) (rx ry : Q) :
  snakeInv s -> snakeInv (onKeyDown s code rx ry).
Proof.
  intros Hinv.
  destruct (onKeyDown_cases s code rx ry) as [[E _] | [d [E | E]]]; rewrite E.
  - apply (snakeInv_initialState rx ry).
  - exact Hinv.
  - exact Hinv.
Qed.

Lemma snakeInv_step (s s' : App) : snakeInv s -> step s s' -> snakeInv s'.
Proof.
  intros Hinv Hstep. destruct Hstep as [s s' rx ry _ _ _ Htick | s code rx ry _ _].
  - eapply snakeInv_gameTick; eassumption.
  - now apply snakeInv_onKeyDown.
Qed.

Lemma snakeInv_reachable (s : App) : reachable s -> snakeInv s.
Proof.
  induction 1 as [rx ry _ _ | s s' _ IH Hstep].
  - apply snakeInv_initialState.
  - eapply snakeInv_step; eassumption.
Qed.

(** ** The speed curve as a table on the length

    [snakeLength / 400 * 100 < p] is [snakeLength < 4 * p]. *)

Lemma percentage_lt (n : nat) (p : Z) :
  Qltb (inject_Z (Z.of_nat n) / inject_Z (gridRows * gridColumns) * 100)
       (inject_Z p)
  = (Z.of_nat n <? 4 * p).
Proof.
  unfold Qltb, Qle_bool, Qdiv, Qmult, Qinv, inject_Z.
  cbn -[Z.mul Z.of_nat].
  destruct (Z.leb_spec (p * 400) (Z.of_nat n * 1 * 100 * 1));
    destruct (Z.ltb_spec (Z.of_nat n) (4 * p)); simpl; try reflexivity; lia.
Qed.

Lemma getGameSpeed_table (n : nat) :
  getGameSpeed n
  = if Z.of_nat n <? 20 then 200
    else if Z.of_nat n <? 60 then 180
    else if Z.of_nat n <? 120 then 155
    else if Z.of_nat n <? 200 then 125
    else if Z.of_nat n <? 300 then 90
    else 50.
Proof.
  unfold getGameSpeed. cbv zeta.
  change 5%Q with (inject_Z 5). change 15%Q with (inject_Z 15).
  change 30%Q with (inject_Z 30). change 50%Q with (inject_Z 50).
  change 75%Q with (inject_Z 75).
  rewrite !percentage_lt. reflexivity.
Qed.

(** ** The key table, the status and the food across a transition *)

Lemma keyDirection_Some (code : string) (d : Direction) :
  keyDirection code = Some d ->
  (code = "ArrowUp" /\ d = North)%string
  \/ (code = "ArrowDown" /\ d = South)%string
  \/ (code = "ArrowLeft" /\ d = West)%string
  \/ (code = "ArrowRight" /\ d = East)%string.
Proof.
  unfold keyDirection.
  destruct (String.eqb_spec code "ArrowUp"); [intros [= <-]; tauto |].
  destruct (String.eqb_spec code "ArrowDown"); [intros [= <-]; tauto |].
  destruct (String.eqb_spec code "ArrowLeft"); [intros [= <-]; tauto |].
  destruct (String.eqb_spec code "ArrowRight"); [intros [= <-]; tauto |].
  discriminate.
Qed.

(** The status after a transition. *)
Lemma gameTick_gameState (s s' : App) (rx ry : Q) :
  gameTick s rx ry = Some s' -> gameState s' = Loss \/ gameState s' = gameState s.
Proof.
  unfold gameTick. destruct (snake s) as [| head tl]; [discriminate |].
  cbv zeta.
  destruct (isOutOfBounds _); [intros [= <-]; now left |].
  destruct (existsb _ _); [intros [= <-]; now left |].
  destruct (isSameCoordinate _ _); intros [= <-]; now right.
Qed.

Lemma onKeyDown_gameState (s : App) (code : string) (rx ry : Q) :
  gameState (onKeyDown s code rx ry) = Playing
  \/ gameState (onKeyDown s code rx ry) = gameState s.
Proof.
  destruct (onKeyDown_cases s code rx ry) as [[E _] | [d [E | E]]]; rewrite E;
    [now left | now right | now right].
Qed.

(** The food after a transition. *)
Lemma gameTick_food (s s' : App) (rx ry : Q) :
  gameTick s rx ry = Some s' ->
  food s' = getRandomCoordinate rx ry \/ food s' = food s.
Proof.
  unfold gameTick. destruct (snake s) as [| head tl]; [discriminate |].
  cbv zeta.
  destruct (isOutOfBounds _); [intros [= <-]; now right |].
  destruct (existsb _ _); [intros [= <-]; now right |].
  destruct (isSameCoordinate _ _); intros [= <-]; [now left | now right].
Qed.

Lemma onKeyDown_food (s : App) (code : string) (rx ry : Q) :
  food (onKeyDown s code rx ry) = getRandomCoordinate rx ry
  \/ food (onKeyDown s code rx ry) = food s.
Proof.
  destruct (onKeyDown_cases s code rx ry) as [[E _] | [d [E | E]]]; rewrite E;
    [now left | now right | now right].
Qed.

Lemma food_inGrid_reachable (s : App) : reachable s -> inGrid (food s).
Proof.
  induction 1 as [rx ry Hx Hy | s s' _ IH Hstep].
  - now apply getRandomCoordinate_inGrid.
  - destruct Hstep as [s s' rx ry _ Hx Hy Htick | s code rx ry Hx Hy].
    + destruct (gameTick_food _ _ _ _ Htick) as [E | E]; rewrite E;
        [now apply getRandomCoordinate_inGrid | assumption].
    + destruct (onKeyDown_food s code rx ry) as [E | E]; rewrite E;
        [now apply getRandomCoordinate_inGrid | assumption].
Qed.

(** ** Rounding in binary64

    The shift-and-round routine of [spec_float], as far as the bound on
    the random helper needs it: shifting right by [n] divides twice the
    mantissa plus the round bit by [2 ^ n], and rounding to nearest even
    adds at most the round bit.  So the rounded product of a draw below 1
    and 20 stays below 20. *)

Lemma shr_1_g (mrs : shr_record) :
  0 <= shr_m mrs ->
  0 <= shr_m (shr_1 mrs) /\ shr_g (shr_1 mrs) = shr_m mrs.
Proof.
  destruct mrs as [m r s]. unfold shr_g. simpl.
  destruct m as [| [p | p |] | p]; simpl; lia.
Qed.

Lemma shr_g_half (mrs : shr_record) :
  0 <= shr_m mrs -> shr_m mrs = shr_g mrs / 2.
Proof.
  intros _. unfold shr_g. destruct (shr_r mrs); simpl Z.b2z.
  - apply Z.div_unique with (r := 1); lia.
  - apply Z.div_unique with (r := 0); lia.
Qed.

Lemma iter_shr_1_g (p : positive) :
  forall mrs : shr_record,
    0 <= shr_m mrs ->
    0 <= shr_m (iter_pos shr_1 p mrs)
    /\ shr_g (iter_pos shr_1 p mrs) = shr_g mrs / 2 ^ Z.pos p.
Proof.
  assert (Hone : forall mrs, 0 <= shr_m mrs ->
            0 <= shr_m (shr_1 mrs) /\ shr_g (shr_1 mrs) = shr_g mrs / 2 ^ 1).
  { intros mrs H. destruct (shr_1_g mrs H) as [H1 H2]. split; [assumption |].
    rewrite H2. change (2 ^ 1) with 2. now apply shr_g_half. }
  induction p as [p IH | p IH |]; intros mrs Hm; simpl iter_pos.
  - destruct (Hone mrs Hm) as [H1 E1].
    destruct (IH _ H1) as [H2 E2]. destruct (IH _ H2) as [H3 E3].
    split; [assumption |].
    rewrite E3, E2, E1, !Z.div_div by lia. f_equal.
    rewrite <- !Z.pow_add_r by lia. f_equal. lia.
  - destruct (IH _ Hm) as [H2 E2]. destruct (IH _ H2) as [H3 E3].
    split; [assumption |].
    rewrite E3, E2, !Z.div_div by lia. f_equal.
    rewrite <- !Z.pow_add_r by lia. f_equal. lia.
  - now apply Hone.
Qed.

(** [shr] by [n] moves the exponent by [Z.max n 0]. *)
Lemma shr_g_spec (mrs : shr_record) (e n : Z) :
  0 <= shr_m mrs ->
  0 <= shr_m (fst (shr mrs e n))
  /\ shr_g (fst (shr mrs e n)) = shr_g mrs / 2 ^ Z.max n 0
  /\ snd (shr mrs e n) = e + Z.max n 0.
Proof.
  intros Hm. destruct n as [| p | p]; simpl.
  - rewrite Z.div_1_r. repeat split; [assumption | lia].
  - destruct (iter_shr_1_g p mrs Hm) as [H1 H2]. repeat split; assumption.
  - rewrite Z.div_1_r. repeat split; [assumption | lia].
Qed.

Lemma round_nearest_even_le (mrs : shr_record) :
  0 <= shr_m mrs ->
  shr_m mrs <= round_nearest_even (shr_m mrs) (loc_of_shr_record mrs)
  /\ 2 * round_nearest_even (shr_m mrs) (loc_of_shr_record mrs)
     <= shr_g mrs + Z.b2z (shr_r mrs).
Proof.
  destruct mrs as [m [|] [|]]; unfold shr_g, round_nearest_even;
    cbn [shr_m shr_r loc_of_shr_record Z.b2z]; intros Hm;
    try destruct (Z.even m); lia.
Qed.

Lemma digits2_pos_size (p : positive) : digits2_pos p = Pos.size p.
Proof. induction p; simpl; congruence. Qed.

Lemma Zdigits2_log2 (p : positive) : Zdigits2 (Z.pos p) = Z.log2 (Z.pos p) + 1.
Proof.
  unfold Zdigits2. rewrite digits2_pos_size.
  destruct p; simpl; rewrite ?Pos.add_1_r; try reflexivity; lia.
Qed.

Lemma Zdigits2_le (a b : Z) : 0 <= a <= b -> Zdigits2 a <= Zdigits2 b.
Proof.
  intros [Ha Hab]. destruct a as [| a | a]; [| | lia].
  - destruct b; simpl; lia.
  - destruct b as [| b | b]; try lia.
    rewrite !Zdigits2_log2. apply Z.add_le_mono_r. apply Z.log2_le_mono. lia.
Qed.

Lemma Zdigits2_lt_pow2 (p : positive) (n : Z) :
  0 <= n -> Z.pos p < 2 ^ n -> Zdigits2 (Z.pos p) <= n.
Proof.
  intros Hn H. rewrite Zdigits2_log2.
  apply Z.log2_lt_pow2 in H; lia.
Qed.

Lemma Zdigits2_gt (p : positive) : Z.pos p < 2 ^ Zdigits2 (Z.pos p).
Proof.
  rewrite Zdigits2_log2. apply Z.log2_spec. lia.
Qed.

(** The result of rounding the exact value [mx * 2 ^ ex], written with the two
    shifts [k] and [k2] that [binary_round_aux] makes. *)
Lemma binary_round_aux_exact (sx : bool) (mx : positive) (ex : Z) :
  exists (m3 k k2 : Z),
    k = Z.max (fexp64 (Zdigits2 (Z.pos mx) + ex) - ex) 0
    /\ 0 <= k2 <= Z.max (fexp64 (Zdigits2 (Z.pos mx) + (ex + k)) - (ex + k)) 0
    /\ 0 <= m3
    /\ 2 * m3 * 2 ^ (k + k2) <= 2 * Z.pos mx + 2 ^ k
    /\ binary_round_aux 53 1024 sx (Z.pos mx) ex loc_Exact
       = match m3 with
         | 0 => S754_zero sx
         | Z.pos m => if ex + k + k2 <=? 1024 - 53
                      then S754_finite sx m (ex + k + k2) else S754_infinity sx
         | Z.neg _ => S754_nan
         end.
Proof.
  unfold binary_round_aux, shr_fexp.
  repeat match goal with
         | |- context [fexp 53 1024 ?z] => change (fexp 53 1024 z) with (fexp64 z)
         end.
  cbn [shr_record_of_loc].
  set (n := fexp64 (Zdigits2 (Z.pos mx) + ex) - ex).
  set (mrs0 := {| shr_m := Z.pos mx; shr_r := false; shr_s := false |}).
  assert (H0 : 0 <= shr_m mrs0) by (simpl; lia).
  destruct (shr_g_spec mrs0 ex n H0) as (Hm1 & Hg1 & He1).
  destruct (shr mrs0 ex n) as [mrs' e'] eqn:Eshr1. cbn [fst snd] in *.
  destruct (round_nearest_even_le mrs' Hm1) as [Hlo Hhi].
  set (m2 := round_nearest_even (shr_m mrs') (loc_of_shr_record mrs')) in *.
  set (n2 := fexp64 (Zdigits2 m2 + e') - e').
  set (mrs1 := {| shr_m := m2; shr_r := false; shr_s := false |}).
  assert (H1 : 0 <= shr_m mrs1) by (simpl; lia).
  destruct (shr_g_spec mrs1 e' n2 H1) as (Hm2 & Hg2 & He2).
  destruct (shr mrs1 e' n2) as [mrs'' e''] eqn:Eshr2. cbn [fst snd] in *.
  set (k := Z.max n 0) in *. set (k2 := Z.max n2 0) in *.
  assert (Hk : 0 <= k) by lia. assert (Hk2 : 0 <= k2) by lia.
  (* the bound on the rounded mantissa *)
  assert (Hg0 : shr_g mrs0 = 2 * Z.pos mx)
    by (unfold shr_g, mrs0; cbn [shr_m shr_r Z.b2z]; lia).
  assert (Hpk : 0 < 2 ^ k) by (apply Z.pow_pos_nonneg; lia).
  assert (Hpk2 : 0 < 2 ^ k2) by (apply Z.pow_pos_nonneg; lia).
  assert (Hdiv1 : shr_g mrs' * 2 ^ k <= 2 * Z.pos mx).
  { rewrite Hg1, Hg0. rewrite Z.mul_comm. apply Z.mul_div_le. assumption. }
  assert (Hr : Z.b2z (shr_r mrs') * 2 ^ k <= 2 ^ k /\ (k = 0 -> shr_r mrs' = false)).
  { split.
    - destruct (shr_r mrs'); cbn [Z.b2z]; lia.
    - intros Hk0. unfold k in Hk0.
      destruct n as [| p | p]; simpl in Eshr1; try lia;
        injection Eshr1 as <- <-; reflexivity. }
  assert (Hm2x : 2 * m2 * 2 ^ k <= 2 * Z.pos mx + 2 ^ k) by nia.
  assert (Hm2le : m2 <= Z.pos mx).
  { destruct (Z.eq_dec k 0) as [Hk0 | Hk0].
    - destruct Hr as [_ Hr]. rewrite (Hr Hk0) in Hhi. cbn [Z.b2z] in Hhi.
      assert (Hp1 : 2 ^ k = 1) by (rewrite Hk0; reflexivity).
      rewrite Hp1 in Hdiv1. lia.
    - assert (2 <= 2 ^ k).
      { change 2 with (2 ^ 1) at 1. apply Z.pow_le_mono_r; lia. }
      nia. }
  assert (Hm3 : shr_m mrs'' * 2 ^ k2 <= m2).
  { assert (shr_g mrs'' * 2 ^ k2 <= 2 * m2).
    { assert (Hgm1 : shr_g mrs1 = 2 * m2)
        by (unfold shr_g, mrs1; cbn [shr_m shr_r Z.b2z]; lia).
      rewrite Hg2, Hgm1, Z.mul_comm. apply Z.mul_div_le. assumption. }
    unfold shr_g in H. destruct (shr_r mrs''); cbn [Z.b2z] in H; nia. }
  exists (shr_m mrs''), k, k2.
  split; [reflexivity |]. split.
  - split; [assumption |]. unfold k2, n2. rewrite He1.
    fold k.
    assert (Zdigits2 m2 <= Zdigits2 (Z.pos mx)) by (apply Zdigits2_le; lia).
    unfold fexp64. lia.
  - split; [assumption |]. split.
    + rewrite Z.pow_add_r by lia. nia.
    + change (shr mrs1 e' (fexp 53 1024 (Zdigits2 m2 + e') - e'))
        with (shr mrs1 e' n2).
      rewrite Eshr2, He2, He1. reflexivity.
Qed.

Lemma unitInterval_b64_finite (s : bool) (m : positive) (e : Z) :
  unitInterval_b64 (S754_finite s m e) ->
  s = false /\ Zdigits2 (Z.pos m) <= 53 /\ -1074 <= e <= -52
  /\ Z.pos m < 2 ^ (- e).
Proof.
  intros (Hv & Hle & Hlt). unfold valid_binary, bounded, canonical_mantissa in Hv.
  apply andb_true_iff in Hv. destruct Hv as [Hc _].
  apply Z.eqb_eq in Hc. change (fexp 53 1024) with fexp64 in Hc.
  change (Z.pos (digits2_pos m)) with (Zdigits2 (Z.pos m)) in Hc.
  destruct s; [discriminate Hle |].
  assert (Hd : Zdigits2 (Z.pos m) <= 53 /\ -1074 <= e) by (unfold fexp64 in Hc; lia).
  change (b64_of_Z 1) with (S754_finite false 4503599627370496 (-52)) in Hlt.
  unfold SFltb, SFcompare in Hlt.
  pose proof (Zdigits2_gt m) as Hgt.
  destruct (Z.compare_spec e (-52)) as [He | He | He]; try discriminate Hlt.
  - subst e. split; [reflexivity |]. split; [lia |]. split; [lia |].
    pose proof (Pos.compare_spec m 4503599627370496) as Hs.
    unfold Pos.compare in Hs.
    destruct Hs as [Hm | Hm | Hm]; try discriminate Hlt.
    change (2 ^ (- -52)) with 4503599627370496. exact Hm.
  - split; [reflexivity |]. split; [lia |]. split; [lia |].
    apply Z.lt_le_trans with (1 := Hgt).
    apply Z.pow_le_mono_r; lia.
Qed.

(** For every binary64 draw in [0,1) the product with 20 rounds to a number
    below 20: the helper returns an integer between 0 and 19. *)
Lemma getRandomNumberFromRange_b64_bounds (r : spec_float) :
  unitInterval_b64 r ->
  exists k, getRandomNumberFromRange_b64 0 19 r = Some k /\ 0 <= k <= 19.
Proof.
  intros Hr. unfold getRandomNumberFromRange_b64.
  change (b64_of_Z (19 - 0 + 1)) with (S754_finite false 5629499534213120 (-48)).
  change (b64_of_Z 0) with (S754_zero false).
  destruct r as [s | s | | s m e].
  - exists 0. split; [destruct s; reflexivity | lia].
  - destruct Hr as (_ & Hle & Hlt). destruct s; discriminate.
  - destruct Hr as (_ & Hle & _). discriminate.
  - destruct (unitInterval_b64_finite s m e Hr) as (-> & Hd & He & Hm).
    cbn [SFmul xorb].
    destruct (binary_round_aux_exact false (m * 5629499534213120) (e + -48))
      as (m3 & k & k2 & Hk & Hk2 & Hm3 & Hle & ->).
    set (c := 5629499534213120%positive) in *.
    assert (Hprod : Zdigits2 (Z.pos (m * c)) <= Zdigits2 (Z.pos m) + 53).
    { apply Zdigits2_lt_pow2; [unfold Zdigits2; lia |].
      rewrite Z.pow_add_r by (unfold Zdigits2; lia).
      pose proof (Zdigits2_gt m). rewrite Pos2Z.inj_mul.
      change (2 ^ 53) with 9007199254740992. unfold c. nia. }
    assert (Hkb : 0 <= k <= 53) by (unfold fexp64 in Hk; lia).
    assert (Hk2b : 0 <= k2 <= 53) by (unfold fexp64 in Hk2; lia).
    destruct m3 as [| m3 | m3]; [exists 0; split; [reflexivity | lia] | | lia].
    assert (Hfin : (e + -48 + k + k2 <=? 1024 - 53) = true)
      by (apply Z.leb_le; lia).
    rewrite Hfin. cbn [SFadd Math_floor].
    eexists. split; [reflexivity |].
    (* the arithmetic of the bound *)
    set (E := - e) in *. set (A := 2 ^ E) in *.
    assert (HA : 0 < A) by (apply Z.pow_pos_nonneg; lia).
    assert (H2k : 2 ^ k <= 2 ^ 53) by (apply Z.pow_le_mono_r; lia).
    change (2 ^ 53) with 9007199254740992 in H2k.
    assert (Hmain : Z.pos m3 * 2 ^ (k + k2) < 20 * (2 ^ 48 * A)).
    { rewrite Pos2Z.inj_mul in Hle. change (2 ^ 48) with 281474976710656.
      unfold c in Hle. nia. }
    destruct (Z.leb_spec 0 (e + -48 + k + k2)) as [He3 | He3].
    + assert (Hj : 2 ^ (k + k2) = 2 ^ (e + -48 + k + k2) * (2 ^ 48 * A)).
      { unfold A. rewrite <- !Z.pow_add_r by lia. f_equal. lia. }
      rewrite Hj in Hmain.
      assert (0 < 2 ^ 48 * A) by lia.
      assert (0 <= 2 ^ (e + -48 + k + k2)) by (apply Z.pow_nonneg; lia).
      split; [lia | nia].
    + assert (Hj : 2 ^ 48 * A = 2 ^ (k + k2) * 2 ^ (- (e + -48 + k + k2))).
      { unfold A. rewrite <- !Z.pow_add_r by lia. f_equal. lia. }
      rewrite Hj in Hmain.
      assert (0 < 2 ^ (k + k2)) by (apply Z.pow_pos_nonneg; lia).
      assert (0 < 2 ^ (- (e + -48 + k + k2))) by (apply Z.pow_pos_nonneg; lia).
      split.
      * apply Z.div_pos; lia.
      * apply Z.lt_succ_r. apply Z.div_lt_upper_bound; [assumption | nia].
Qed.


(** Every cell of a row is hit by a binary64 draw. *)
Lemma drawFor_hit (k : Z) :
  0 <= k <= 19 ->
  unitInterval_b64 (drawFor k)
  /\ getRandomNumberFromRange_b64 0 19 (drawFor k) = Some k.
Proof.
  intros Hk.
  assert (Hall :
    forallb
      (fun n =>
         let r := drawFor (Z.of_nat n) in
         valid_binary 53 1024 r && SFleb (S754_zero false) r
         && SFltb r (b64_of_Z 1)
         && match getRandomNumberFromRange_b64 0 19 r with
            | Some j => j =? Z.of_nat n
            | None => false
            end)
      (seq 0 20) = true) by (vm_compute; reflexivity).
  rewrite forallb_forall in Hall.
  specialize (Hall (Z.to_nat k)). rewrite Z2Nat.id in Hall by lia.
  assert (Hin : In (Z.to_nat k) (seq 0 20)) by (apply in_seq; lia).
  apply Hall in Hin. cbv zeta in Hin.
  rewrite !andb_true_iff in Hin. destruct Hin as [[[Hv Hle] Hlt] Hfl].
  split; [repeat split; assumption |].
  destruct (getRandomNumberFromRange_b64 0 19 (drawFor k)) as [j |];
    [| discriminate].
  apply Z.eqb_eq in Hfl. now subst j.
Qed.

(** Rational draws and binary64 draws yield the same numbers. *)
Lemma draw_outcomes_agree (k : Z) :
  (exists r, unitInterval_b64 r
             /\ getRandomNumberFromRange_b64 0 (gridRows - 1) r = Some k)
  <-> (exists q, unitInterval q
                 /\ getRandomNumberFromRange 0 (gridRows - 1) q = k).
Proof.
  change (gridRows - 1) with 19. split.
  - intros (r & Hr & Hk).
    destruct (getRandomNumberFromRange_b64_bounds r Hr) as (j & Hj & Hb).
    rewrite Hj in Hk. injection Hk as ->.
    destruct (getRandomNumberFromRange_hit 19 k Hb) as [E U].
    exists (k # Z.to_pos (19 + 1)). split; assumption.
  - intros (q & Hq & Hk).
    assert (Hb : 0 <= k <= 19).
    { rewrite <- Hk. apply getRandomNumberFromRange_bounds; [lia | assumption]. }
    destruct (drawFor_hit k Hb) as [U E].
    exists (drawFor k). split; assumption.
Qed.

(** So every coordinate drawn in binary64 is one that rational draws give:
    the transition system over rational draws has every run that binary64
    draws produce. *)
Lemma getRandomCoordinate_b64_rational (rx ry : spec_float) :
  unitInterval_b64 rx -> unitInterval_b64 ry ->
  exists qx qy,
    unitInterval qx /\ unitInterval qy
    /\ getRandomCoordinate_b64 rx ry = Some (getRandomCoordinate qx qy).
Proof.
  intros Hx Hy. unfold getRandomCoordinate_b64.
  destruct (getRandomNumberFromRange_b64_bounds rx Hx) as (a & Ea & Ha).
  destruct (getRandomNumberFromRange_b64_bounds ry Hy) as (b & Eb & Hb).
  change (gridRows - 1) with 19. change (gridColumns - 1) with 19.
  rewrite Ea, Eb.
  destruct (getRandomCoordinate_hit {| x := a; y := b |}) as (qx & qy & Ux & Uy & E).
  { unfold inGrid, gridColumns, gridRows; simpl; lia. }
  exists qx, qy. rewrite E.
  split; [assumption | split; [assumption | reflexivity]].
Qed.

(** On the lengths a snake can have, the speed curve computed in binary64
    is the one computed exactly. *)
Lemma getGameSpeed_b64_agrees (n : nat) :
  (n <= 400)%nat -> getGameSpeed_b64 n = getGameSpeed n.
Proof.
  intros Hn.
  assert (Hall :
    forallb
      (fun n =>
         getGameSpeed_b64 n
         =? (if Z.of_nat n <? 20 then 200
             else if Z.of_nat n <? 60 then 180
             else if Z.of_nat n <? 120 then 155
             else if Z.of_nat n <? 200 then 125
             else if Z.of_nat n <? 300 then 90
             else 50))
      (seq 0 401) = true) by (vm_compute; reflexivity).
  rewrite forallb_forall in Hall.
  assert (Hin : In n (seq 0 401)) by (apply in_seq; lia).
  apply Hall in Hin. apply Z.eqb_eq in Hin.
  rewrite Hin, getGameSpeed_table. reflexivity.
Qed.

(** Closed instances of [unitInterval]. *)
Ltac unit_interval :=
  split; [apply Qle_bool_imp_le; reflexivity | reflexivity].

(** * The properties of the specification *)

(** ** Food placement *)

(** C1, as stated, fails: a fresh food coordinate can coincide with a snake
    segment.  In the initial state the draws [1/2, 1/2] give the centre
    cell, which is the snake's only segment; after the capture of the food
    at [(11,10)] the draws [11/20, 1/2] place the new food on the new
    head.  The centre cell is also what the binary64 draws [21/40, 21/40]
    give. *)
Lemma food_placement_counterexample :
  (unitInterval (1 # 2)
   /\ In (food (initialState (1 # 2) (1 # 2)))
         (snake (initialState (1 # 2) (1 # 2))))
  /\ (unitInterval (11 # 20)
      /\ reachable (initialState (11 # 20) (1 # 2))
      /\ exists s',
          gameTick (initialState (11 # 20) (1 # 2)) (11 # 20) (1 # 2) = Some s'
          /\ List.length (snake s') = 2%nat
          /\ In (food s') (snake s'))
  /\ (unitInterval_b64 (drawFor 10)
      /\ getRandomCoordinate_b64 (drawFor 10) (drawFor 10)
         = Some getCenterCoordinate).
Proof.
  assert (U1 : unitInterval (1 # 2)) by unit_interval.
  assert (U2 : unitInterval (11 # 20)) by unit_interval.
  split; [split; [exact U1 | left; reflexivity] |].
  split.
  - split; [exact U2 |]. split; [now constructor |].
    eexists. split; [reflexivity |]. split; [reflexivity | left; reflexivity].
  - split; [apply drawFor_hit; lia | vm_compute; reflexivity].
Qed.

(** C1 (amended): whenever a food coordinate is placed (in the initial
    state, on a restart and on every food capture of gameTick) it is the
    coordinate returned by getRandomCoordinate for the two draws, unchecked
    against the snake: it lies on the grid, and it differs from every
    segment of the snake at that moment exactly when the drawn cell is not
    one of those segments. *)
Theorem food_placement (rx ry : Q) :
  unitInterval rx -> unitInterval ry ->
  inGrid (getRandomCoordinate rx ry)
  /\ (food (initialState rx ry) = getRandomCoordinate rx ry
      /\ (~ In (food (initialState rx ry)) (snake (initialState rx ry))
          <-> getRandomCoordinate rx ry <> getCenterCoordinate))
  /\ (forall s : App,
        gameState s <> Playing ->
        food (onKeyDown s "Space" rx ry) = getRandomCoordinate rx ry
        /\ (~ In (food (onKeyDown s "Space" rx ry))
                 (snake (onKeyDown s "Space" rx ry))
            <-> getRandomCoordinate rx ry <> getCenterCoordinate))
  /\ (forall (s : App) (head : Coordinate) (tl : list Coordinate),
        snake s = head :: tl ->
        isOutOfBounds (getNextCoordinate head (currentDirection s)) = false ->
        ~ In (getNextCoordinate head (currentDirection s)) (snake s) ->
        food s = getNextCoordinate head (currentDirection s) ->
        exists s',
          gameTick s rx ry = Some s'
          /\ food s' = getRandomCoordinate rx ry
          /\ snake s' = food s :: snake s
          /\ (~ In (food s') (snake s')
              <-> getRandomCoordinate rx ry <> food s
                  /\ ~ In (getRandomCoordinate rx ry) (snake s))).
Proof.
  intros Hx Hy. split; [now apply getRandomCoordinate_inGrid |].
  assert (Hone : forall c : Coordinate,
             ~ In c [getCenterCoordinate] <-> c <> getCenterCoordinate).
  { intros c. simpl. split.
    - intros H E. apply H. left. now symmetry.
    - intros H [E | []]. apply H. now symmetry. }
  split; [split; [reflexivity | apply Hone] |].
  split.
  - intros s Hs. unfold onKeyDown.
    destruct (gameState s); [congruence | |]; simpl; split;
      solve [reflexivity | apply Hone].
  - intros s head tl Hsnake Hin Hmem Hfood.
    eexists. split; [now apply (gameTick_foodCapture s rx ry head tl) |].
    simpl. split; [reflexivity |]. split; [reflexivity |].
    split.
    + intros H. split.
      * intros E. apply H. left. now symmetry.
      * intros Hc. apply H. now right.
    + intros [Hne Hni] [E | Hc]; [apply Hne; now symmetry | now apply Hni].
Qed.

Lemma food_placement_witness :
  inGrid (getRandomCoordinate (1 # 4) (3 # 4))
  /\ food (initialState (1 # 4) (3 # 4)) = {| x := 5; y := 15 |}
  /\ ~ In (food (initialState (1 # 4) (3 # 4)))
          (snake (initialState (1 # 4) (3 # 4))).
Proof.
  assert (U1 : unitInterval (1 # 4)) by unit_interval.
  assert (U2 : unitInterval (3 # 4)) by unit_interval.
  destruct (food_placement (1 # 4) (3 # 4) U1 U2) as (Hg & (Hf & Hi) & _).
  split; [exact Hg |]. split; [reflexivity |].
  apply Hi. vm_compute. discriminate.
Defined.

(** ** The four outcomes of a tick *)

(** C2: in a Playing state whose next coordinate is on the grid, on no
    segment of the snake and equal to the food, gameTick prepends the food's
    own coordinate, which is the next coordinate, keeps every old segment so
    that the length grows by exactly one, draws a new food coordinate, and
    leaves the status Playing. *)
Theorem gameTick_food_capture
    (s : App) (rx ry : Q) (head : Coordinate) (tl : list Coordinate) :
  gameState s = Playing ->
  snake s = head :: tl ->
  isOutOfBounds (getNextCoordinate head (currentDirection s)) = false ->
  ~ In (getNextCoordinate head (currentDirection s)) (snake s) ->
  getNextCoordinate head (currentDirection s) = food s ->
  exists s',
    gameTick s rx ry = Some s'
    /\ snake s' = food s :: snake s
    /\ hd_error (snake s') = Some (getNextCoordinate head (currentDirection s))
    /\ List.length (snake s') = S (List.length (snake s))
    /\ food s' = getRandomCoordinate rx ry
    /\ gameState s' = Playing.
Proof.
  intros Hplay Hsnake Hin Hmem Hfood.
  eexists. split.
  - apply (gameTick_foodCapture s rx ry head tl); [assumption .. | now symmetry].
  - simpl. rewrite Hfood. repeat split; assumption.
Qed.

Lemma gameTick_food_capture_witness :
  exists s',
    gameTick (mkApp Playing East East
                [ {| x := 10; y := 10 |}; {| x := 9; y := 10 |} ]
                {| x := 11; y := 10 |}) (3 # 20) (7 # 20) = Some s'
    /\ snake s' = [ {| x := 11; y := 10 |}; {| x := 10; y := 10 |};
                    {| x := 9; y := 10 |} ]
    /\ food s' = {| x := 3; y := 7 |}
    /\ gameState s' = Playing.
Proof.
  destruct (gameTick_food_capture
              (mkApp Playing East East
                 [ {| x := 10; y := 10 |}; {| x := 9; y := 10 |} ]
                 {| x := 11; y := 10 |})
              (3 # 20) (7 # 20) {| x := 10; y := 10 |} [ {| x := 9; y := 10 |} ])
    as (s' & Ht & Hs & _ & _ & Hf & Hg).
  - reflexivity.
  - reflexivity.
  - reflexivity.
  - simpl. intros [E | [E | []]]; discriminate E.
  - reflexivity.
  - exists s'. repeat split; assumption.
Defined.

(** C3: in a Playing state whose next coordinate is on the grid but on some
    segment of the snake as it is before the move, the last segment
    included, gameTick sets the status to Loss; so it does from the snake
    [(5,5); (4,5); (3,5)] in the direction whose next coordinate is [(4,5)],
    which is West. *)
Theorem gameTick_self_collision :
  (forall (s : App) (rx ry : Q) (head : Coordinate) (tl : list Coordinate),
      gameState s = Playing ->
      snake s = head :: tl ->
      isOutOfBounds (getNextCoordinate head (currentDirection s)) = false ->
      In (getNextCoordinate head (currentDirection s)) (snake s) ->
      exists s', gameTick s rx ry = Some s' /\ gameState s' = Loss)
  /\ (forall (s : App) (rx ry : Q) (head : Coordinate) (tl : list Coordinate),
        gameState s = Playing ->
        snake s = head :: tl ->
        isOutOfBounds (getNextCoordinate head (currentDirection s)) = false ->
        getNextCoordinate head (currentDirection s) = last (snake s) head ->
        exists s', gameTick s rx ry = Some s' /\ gameState s' = Loss)
  /\ (forall (s : App) (rx ry : Q),
        gameState s = Playing ->
        snake s = [ {| x := 5; y := 5 |}; {| x := 4; y := 5 |};
                    {| x := 3; y := 5 |} ] ->
        getNextCoordinate {| x := 5; y := 5 |} (currentDirection s)
        = {| x := 4; y := 5 |} ->
        currentDirection s = West
        /\ exists s', gameTick s rx ry = Some s' /\ gameState s' = Loss).
Proof.
  assert (General :
    forall (s : App) (rx ry : Q) (head : Coordinate) (tl : list Coordinate),
      gameState s = Playing ->
      snake s = head :: tl ->
      isOutOfBounds (getNextCoordinate head (currentDirection s)) = false ->
      In (getNextCoordinate head (currentDirection s)) (snake s) ->
      exists s', gameTick s rx ry = Some s' /\ gameState s' = Loss).
  { intros s rx ry head tl _ Hsnake Hin Hmem. eexists. split.
    - now apply (gameTick_selfCollision s rx ry head tl).
    - reflexivity. }
  split; [exact General |]. split.
  - intros s rx ry head tl Hplay Hsnake Hin Hlast.
    apply (General s rx ry head tl); try assumption.
    rewrite Hlast, Hsnake.
    destruct (exists_last (l := head :: tl)) as (l' & a & E); [discriminate |].
    rewrite E, last_last. apply in_or_app. right. now left.
  - intros s rx ry Hplay Hsnake Hnext. split.
    + destruct (currentDirection s); try discriminate Hnext. reflexivity.
    + apply (General s rx ry {| x := 5; y := 5 |}
               [ {| x := 4; y := 5 |}; {| x := 3; y := 5 |} ]);
        try assumption; rewrite Hnext.
      * reflexivity.
      * rewrite Hsnake. right. left. reflexivity.
Qed.

Lemma gameTick_self_collision_witness :
  exists s',
    gameTick (mkApp Playing North West
                [ {| x := 5; y := 5 |}; {| x := 6; y := 5 |};
                  {| x := 6; y := 4 |}; {| x := 5; y := 4 |};
                  {| x := 4; y := 4 |} ]
                {| x := 0; y := 0 |}) (1 # 2) (1 # 2) = Some s'
    /\ gameState s' = Loss.
Proof.
  apply (proj1 gameTick_self_collision _ (1 # 2) (1 # 2) {| x := 5; y := 5 |}
           [ {| x := 6; y := 5 |}; {| x := 6; y := 4 |}; {| x := 5; y := 4 |};
             {| x := 4; y := 4 |} ]).
  - reflexivity.
  - reflexivity.
  - reflexivity.
  - simpl. do 3 right. left. reflexivity.
Defined.

(** C4: in a Playing state whose next coordinate is off the grid, gameTick
    sets the status to Loss and records currentDirection as lastDirection;
    the snake, the food and currentDirection are unchanged.  So it is from a
    head at [(0,5)] heading West, whose next coordinate is [(-1,5)]. *)
Theorem gameTick_out_of_bounds :
  (forall (s : App) (rx ry : Q) (head : Coordinate) (tl : list Coordinate),
      gameState s = Playing ->
      snake s = head :: tl ->
      isOutOfBounds (getNextCoordinate head (currentDirection s)) = true ->
      exists s',
        gameTick s rx ry = Some s'
        /\ gameState s' = Loss
        /\ lastDirection s' = currentDirection s
        /\ snake s' = snake s
        /\ food s' = food s
        /\ currentDirection s' = currentDirection s)
  /\ (forall (s : App) (rx ry : Q) (tl : list Coordinate),
        gameState s = Playing ->
        snake s = {| x := 0; y := 5 |} :: tl ->
        currentDirection s = West ->
        getNextCoordinate {| x := 0; y := 5 |} (currentDirection s)
        = {| x := -1; y := 5 |}
        /\ exists s',
            gameTick s rx ry = Some s'
            /\ gameState s' = Loss
            /\ snake s' = snake s).
Proof.
  split.
  - intros s rx ry head tl _ Hsnake Hout. eexists. split.
    + now apply (gameTick_outOfBounds s rx ry head tl).
    + simpl. repeat split.
  - intros s rx ry tl _ Hsnake Hdir. rewrite Hdir. split; [reflexivity |].
    eexists. split.
    + apply (gameTick_outOfBounds s rx ry {| x := 0; y := 5 |} tl Hsnake).
      rewrite Hdir. reflexivity.
    + simpl. split; reflexivity.
Qed.

Lemma gameTick_out_of_bounds_witness :
  exists s',
    gameTick (mkApp Playing South East
                [ {| x := 7; y := 19 |}; {| x := 6; y := 19 |} ]
                {| x := 2; y := 3 |}) (1 # 2) (1 # 2) = Some s'
    /\ gameState s' = Loss
    /\ lastDirection s' = South
    /\ snake s' = [ {| x := 7; y := 19 |}; {| x := 6; y := 19 |} ]
    /\ food s' = {| x := 2; y := 3 |}
    /\ currentDirection s' = South.
Proof.
  apply (proj1 gameTick_out_of_bounds
           (mkApp Playing South East
              [ {| x := 7; y := 19 |}; {| x := 6; y := 19 |} ]
              {| x := 2; y := 3 |})
           (1 # 2) (1 # 2) {| x := 7; y := 19 |} [ {| x := 6; y := 19 |} ]);
    reflexivity.
Defined.

(** C5: in a Playing state whose next coordinate is on the grid, on no
    segment of the snake and not the food, gameTick makes the snake the next
    coordinate followed by the old snake without its last segment, of the
    same length, and leaves the food and the Playing status as they are.  So
    from the snake [(10,10)] heading East with food at [(15,15)] the snake
    becomes [(11,10)]. *)
Theorem gameTick_normal_move :
  (forall (s : App) (rx ry : Q) (head : Coordinate) (tl : list Coordinate),
      gameState s = Playing ->
      snake s = head :: tl ->
      isOutOfBounds (getNextCoordinate head (currentDirection s)) = false ->
      ~ In (getNextCoordinate head (currentDirection s)) (snake s) ->
      getNextCoordinate head (currentDirection s) <> food s ->
      exists s',
        gameTick s rx ry = Some s'
        /\ snake s'
           = getNextCoordinate head (currentDirection s) :: removelast (snake s)
        /\ List.length (snake s') = List.length (snake s)
        /\ food s' = food s
        /\ gameState s' = Playing)
  /\ (forall (s : App) (rx ry : Q),
        gameState s = Playing ->
        snake s = [ {| x := 10; y := 10 |} ] ->
        currentDirection s = East ->
        food s = {| x := 15; y := 15 |} ->
        exists s',
          gameTick s rx ry = Some s'
          /\ snake s' = [ {| x := 11; y := 10 |} ]
          /\ gameState s' = Playing).
Proof.
  assert (General :
    forall (s : App) (rx ry : Q) (head : Coordinate) (tl : list Coordinate),
      gameState s = Playing ->
      snake s = head :: tl ->
      isOutOfBounds (getNextCoordinate head (currentDirection s)) = false ->
      ~ In (getNextCoordinate head (currentDirection s)) (snake s) ->
      getNextCoordinate head (currentDirection s) <> food s ->
      exists s',
        gameTick s rx ry = Some s'
        /\ snake s'
           = getNextCoordinate head (currentDirection s) :: removelast (snake s)
        /\ List.length (snake s') = List.length (snake s)
        /\ food s' = food s
        /\ gameState s' = Playing).
  { intros s rx ry head tl Hplay Hsnake Hin Hmem Hfood. eexists. split.
    - apply (gameTick_move s rx ry head tl); try assumption.
      intros E. apply Hfood. now symmetry.
    - simpl. repeat split; try assumption.
      rewrite <- slice_removelast, Hsnake. now rewrite slice_length. }
  split; [exact General |].
  intros s rx ry Hplay Hsnake Hdir Hfood.
  destruct (General s rx ry {| x := 10; y := 10 |} [] Hplay Hsnake)
    as (s' & Ht & Hs & _ & _ & Hg).
  - rewrite Hdir. reflexivity.
  - rewrite Hdir, Hsnake. simpl. intros [E | []]. discriminate E.
  - rewrite Hdir, Hfood. discriminate.
  - exists s'. rewrite Hs, Hdir, Hsnake. repeat split; assumption.
Qed.

Lemma gameTick_normal_move_witness :
  exists s',
    gameTick (mkApp Playing North East
                [ {| x := 3; y := 8 |}; {| x := 2; y := 8 |};
                  {| x := 2; y := 7 |} ]
                {| x := 15; y := 15 |}) (1 # 2) (1 # 2) = Some s'
    /\ snake s' = [ {| x := 3; y := 7 |}; {| x := 3; y := 8 |};
                    {| x := 2; y := 8 |} ]
    /\ food s' = {| x := 15; y := 15 |}
    /\ gameState s' = Playing.
Proof.
  destruct (proj1 gameTick_normal_move
              (mkApp Playing North East
                 [ {| x := 3; y := 8 |}; {| x := 2; y := 8 |};
                   {| x := 2; y := 7 |} ]
                 {| x := 15; y := 15 |})
              (1 # 2) (1 # 2) {| x := 3; y := 8 |}
              [ {| x := 2; y := 8 |}; {| x := 2; y := 7 |} ])
    as (s' & Ht & Hs & _ & Hf & Hg).
  - reflexivity.
  - reflexivity.
  - reflexivity.
  - simpl. intros [E | [E | [E | []]]]; discriminate E.
  - discriminate.
  - exists s'. repeat split; assumption.
Defined.

(** ** The snake invariant *)

(** C6: in every reachable state whose status is Playing the segments of the
    snake are pairwise distinct and their number lies between 1 and 400.
    It holds in the initial state, and in the Playing state that a gameTick
    or a key event produces from a reachable state. *)
Theorem snake_distinct_and_bounded :
  (forall rx ry : Q,
      NoDup (snake (initialState rx ry))
      /\ (1 <= List.length (snake (initialState rx ry)) <= 400)%nat)
  /\ (forall (s s' : App) (rx ry : Q),
        reachable s -> gameState s = Playing ->
        gameTick s rx ry = Some s' -> gameState s' = Playing ->
        NoDup (snake s') /\ (1 <= List.length (snake s') <= 400)%nat)
  /\ (forall (s : App) (code : string) (rx ry : Q),
        reachable s -> gameState (onKeyDown s code rx ry) = Playing ->
        NoDup (snake (onKeyDown s code rx ry))
        /\ (1 <= List.length (snake (onKeyDown s code rx ry)) <= 400)%nat)
  /\ (forall s : App,
        reachable s -> gameState s = Playing ->
        NoDup (snake s) /\ (1 <= List.length (snake s) <= 400)%nat).
Proof.
  assert (Hinv : forall s, snakeInv s ->
            NoDup (snake s) /\ (1 <= List.length (snake s) <= 400)%nat).
  { intros s H. split; [apply H | now apply snakeInv_length]. }
  repeat split.
  1-3: apply Hinv, snakeInv_initialState.
  1-3: apply Hinv; eapply snakeInv_gameTick;
         [apply snakeInv_reachable; eassumption | eassumption].
  1-3: apply Hinv, snakeInv_onKeyDown, snakeInv_reachable; assumption.
  1-3: apply Hinv, snakeInv_reachable; assumption.
Qed.

Lemma snake_distinct_and_bounded_witness :
  NoDup [ {| x := 11; y := 10 |}; {| x := 10; y := 10 |} ]
  /\ (1 <= 2 <= 400)%nat.
Proof.
  apply (proj1 (proj2 snake_distinct_and_bounded)
           (initialState (11 # 20) (1 # 2))
           (mkApp Playing East East
              [ {| x := 11; y := 10 |}; {| x := 10; y := 10 |} ]
              {| x := 3; y := 7 |})
           (3 # 20) (7 # 20)).
  - apply reachable_init; unit_interval.
  - reflexivity.
  - reflexivity.
  - reflexivity.
Defined.

(** ** The speed curve *)

(** C7, as stated, fails: the interval is not strictly decreasing, lengths 1
    and 2 both get 200 ms, computed exactly or in binary64. *)
Lemma getGameSpeed_strict_counterexample :
  (1 <= 1)%nat /\ (1 < 2)%nat /\ (2 <= 400)%nat
  /\ ~ getGameSpeed 2 < getGameSpeed 1
  /\ ~ getGameSpeed_b64 2 < getGameSpeed_b64 1.
Proof.
  repeat split; try lia; vm_compute; discriminate.
Qed.

(** C7 (amended): getGameSpeed is a pure function of the length and yields
    a non-increasing interval as the snake grows: for lengths [s1 <= s2],
    [getGameSpeed s2 <= getGameSpeed s1]; the interval is 200 ms at length 1
    and 50 ms from length 300 on.  Up to length 400 the same holds of the
    curve computed in binary64, which is the same curve. *)
Theorem getGameSpeed_non_increasing (s1 s2 : nat) :
  (s1 <= s2)%nat ->
  getGameSpeed s2 <= getGameSpeed s1
  /\ getGameSpeed 1 = 200
  /\ ((300 <= s2)%nat -> getGameSpeed s2 = 50)
  /\ ((s2 <= 400)%nat ->
      getGameSpeed_b64 s1 = getGameSpeed s1
      /\ getGameSpeed_b64 s2 = getGameSpeed s2
      /\ getGameSpeed_b64 s2 <= getGameSpeed_b64 s1).
Proof.
  intros Hle.
  assert (Hmono : getGameSpeed s2 <= getGameSpeed s1).
  { rewrite !getGameSpeed_table.
    repeat match goal with
           | |- context [?a <? ?b] => destruct (Z.ltb_spec a b)
           end; lia. }
  split; [exact Hmono |]. split; [apply getGameSpeed_table |]. split.
  - intros H300. rewrite getGameSpeed_table.
    repeat match goal with
           | |- context [?a <? ?b] => destruct (Z.ltb_spec a b)
           end; lia.
  - intros H400.
    rewrite !getGameSpeed_b64_agrees by lia. repeat split. exact Hmono.
Qed.

Lemma getGameSpeed_non_increasing_witness :
  (19 <= 60)%nat
  /\ getGameSpeed 60 <= getGameSpeed 19
  /\ getGameSpeed_b64 60 <= getGameSpeed_b64 19.
Proof.
  assert (H : (19 <= 60)%nat) by lia.
  destruct (getGameSpeed_non_increasing 19 60 H) as (H1 & _ & _ & H4).
  split; [exact H |]. split; [exact H1 |]. apply H4. lia.
Defined.

(** ** The input handler *)

(** C8: in every state, an arrow key whose direction is the reverse of
    lastDirection changes nothing, and an arrow key whose direction is not
    the reverse of lastDirection sets currentDirection to that direction
    (and nothing else); with lastDirection East, ArrowLeft is ignored. *)
Theorem onKeyDown_reversal_guard :
  (forall (s : App) (code : string) (d : Direction) (rx ry : Q),
      keyDirection code = Some d ->
      (d = reverse (lastDirection s) -> onKeyDown s code rx ry = s)
      /\ (d <> reverse (lastDirection s) ->
          onKeyDown s code rx ry = setCurrentDirection d s
          /\ currentDirection (onKeyDown s code rx ry) = d))
  /\ (forall (s : App) (rx ry : Q),
        lastDirection s = East ->
        keyDirection "ArrowLeft" = Some (reverse East)
        /\ onKeyDown s "ArrowLeft" rx ry = s
        /\ currentDirection (onKeyDown s "ArrowLeft" rx ry)
           = currentDirection s).
Proof.
  split.
  - intros s code d rx ry Hkey.
    destruct (keyDirection_Some code d Hkey)
      as [[-> ->] | [[-> ->] | [[-> ->] | [-> ->]]]];
      unfold onKeyDown; destruct (lastDirection s); simpl;
      split; intros H; try congruence; try (split; reflexivity).
  - intros s rx ry Hlast. split; [reflexivity |].
    assert (E : onKeyDown s "ArrowLeft" rx ry = s).
    { unfold onKeyDown. rewrite Hlast. simpl. reflexivity. }
    rewrite E. split; reflexivity.
Qed.

Lemma onKeyDown_reversal_guard_witness :
  onKeyDown (mkApp Playing East North [ {| x := 10; y := 10 |} ]
               {| x := 3; y := 7 |}) "ArrowDown" (1 # 2) (1 # 2)
  = mkApp Playing East North [ {| x := 10; y := 10 |} ] {| x := 3; y := 7 |}
  /\ currentDirection
       (onKeyDown (mkApp Playing East North [ {| x := 10; y := 10 |} ]
                     {| x := 3; y := 7 |}) "ArrowLeft" (1 # 2) (1 # 2))
     = West.
Proof.
  split.
  - apply (proj1 onKeyDown_reversal_guard
             (mkApp Playing East North [ {| x := 10; y := 10 |} ]
                {| x := 3; y := 7 |}) "ArrowDown"%string South (1 # 2) (1 # 2));
      reflexivity.
  - apply (proj1 onKeyDown_reversal_guard
             (mkApp Playing East North [ {| x := 10; y := 10 |} ]
                {| x := 3; y := 7 |}) "ArrowLeft"%string West (1 # 2) (1 # 2));
      [reflexivity | discriminate].
Defined.

(** ** The status Win *)

(** C9: no transition assigns Win.  The status after gameTick is Loss or
    the status before it; the status after a key event is Playing or the
    status before it.  So a transition never leads from a state that is not
    in Win to one that is, and no state reachable from the initial state
    has the status Win. *)
Theorem win_never_assigned :
  (forall (s s' : App) (rx ry : Q),
      gameTick s rx ry = Some s' ->
      gameState s' = Loss \/ gameState s' = gameState s)
  /\ (forall (s : App) (code : string) (rx ry : Q),
        gameState (onKeyDown s code rx ry) = Playing
        \/ gameState (onKeyDown s code rx ry) = gameState s)
  /\ (forall s s' : App,
        gameState s <> Win -> step s s' -> gameState s' <> Win)
  /\ (forall s : App, reachable s -> gameState s <> Win).
Proof.
  assert (Hstep : forall s s' : App,
             gameState s <> Win -> step s s' -> gameState s' <> Win).
  { intros s s' Hs Hst.
    destruct Hst as [s s' rx ry _ _ _ Htick | s code rx ry _ _].
    - destruct (gameTick_gameState _ _ _ _ Htick) as [E | E]; rewrite E;
        [discriminate | assumption].
    - destruct (onKeyDown_gameState s code rx ry) as [E | E]; rewrite E;
        [discriminate | assumption]. }
  split; [exact gameTick_gameState |].
  split; [exact onKeyDown_gameState |].
  split; [exact Hstep |].
  induction 1 as [rx ry _ _ | s s' _ IH Hst].
  - discriminate.
  - now apply (Hstep s s').
Qed.

Lemma win_never_assigned_witness :
  gameState (onKeyDown (mkApp Loss North North
                          [ {| x := 10; y := 0 |} ] {| x := 3; y := 7 |})
               "Space" (1 # 2) (1 # 4)) <> Win.
Proof.
  apply (proj1 (proj2 (proj2 win_never_assigned))
           (mkApp Loss North North [ {| x := 10; y := 0 |} ]
              {| x := 3; y := 7 |})).
  - discriminate.
  - apply step_key; unit_interval.
Defined.

(** ** The food stays on the grid *)

(** C10: for draws in [0,1) both components of the coordinate returned by
    getRandomCoordinate lie between 0 and 19, so isOutOfBounds is false on
    it; hence the food of every reachable state, initial or respawned, is
    on the 20 x 20 grid.  The bounds hold for the exact product and for the
    product rounded to binary64 alike. *)
Theorem food_on_grid :
  (forall rx ry : Q,
      unitInterval rx -> unitInterval ry ->
      0 <= x (getRandomCoordinate rx ry) <= 19
      /\ 0 <= y (getRandomCoordinate rx ry) <= 19
      /\ isOutOfBounds (getRandomCoordinate rx ry) = false)
  /\ (forall rx ry : spec_float,
        unitInterval_b64 rx -> unitInterval_b64 ry ->
        exists c,
          getRandomCoordinate_b64 rx ry = Some c
          /\ (0 <= x c <= 19 /\ 0 <= y c <= 19)
          /\ isOutOfBounds c = false)
  /\ (forall s : App, reachable s -> isOutOfBounds (food s) = false).
Proof.
  split; [| split].
  - intros rx ry Hx Hy.
    pose proof (getRandomCoordinate_inGrid rx ry Hx Hy) as Hg.
    split; [| split; [| now apply isOutOfBounds_false]];
      destruct Hg as [Gx Gy]; unfold gridColumns, gridRows in *; lia.
  - intros rx ry Hx Hy.
    destruct (getRandomCoordinate_b64_rational rx ry Hx Hy)
      as (qx & qy & Ux & Uy & E).
    exists (getRandomCoordinate qx qy). split; [exact E |].
    pose proof (getRandomCoordinate_inGrid qx qy Ux Uy) as Hg.
    split; [| now apply isOutOfBounds_false].
    destruct Hg as [Gx Gy]; unfold gridColumns, gridRows in *; lia.
  - intros s Hs. apply isOutOfBounds_false. now apply food_inGrid_reachable.
Qed.

Lemma food_on_grid_witness :
  0 <= x (getRandomCoordinate (399 # 400) (0 # 1)) <= 19
  /\ 0 <= y (getRandomCoordinate (399 # 400) (0 # 1)) <= 19
  /\ isOutOfBounds (getRandomCoordinate (399 # 400) (0 # 1)) = false.
Proof.
  apply (proj1 food_on_grid (399 # 400) (0 # 1)); unit_interval.
Defined.

(** * Further properties of the code *)

(** ** Geometry *)



(** X3: isOutOfBounds is false exactly on the coordinates of the boxes that
    the grid renders, one per column index and row index. *)
Theorem isOutOfBounds_rendered_cells (c : Coordinate) :
  isOutOfBounds c = false
  <-> In (x c) (indices gridColumns) /\ In (y c) (indices gridRows).
Proof.
  rewrite isOutOfBounds_false. unfold inGrid, indices.
  rewrite !in_map_iff. split.
  - intros [Hx Hy]. split.
    + exists (Z.to_nat (x c)). split; [lia |]. apply in_seq.
      unfold gridColumns in *. simpl. lia.
    + exists (Z.to_nat (y c)). split; [lia |]. apply in_seq.
      unfold gridRows in *. simpl. lia.
  - intros [(i & Ei & Hi) (j & Ej & Hj)].
    apply in_seq in Hi, Hj. unfold gridColumns, gridRows in *.
    simpl in Hi, Hj. lia.
Qed.

(** ** The random helpers *)






(** X6: the coordinates getRandomCoordinate can return are exactly the
    coordinates on which isOutOfBounds is false, whether the draws are exact
    rationals or binary64 numbers in [0,1): every cell of the grid can
    receive the food and nothing else can. *)
Theorem getRandomCoordinate_image (c : Coordinate) :
  (isOutOfBounds c = false
   <-> exists rx ry : Q,
         unitInterval rx /\ unitInterval ry /\ getRandomCoordinate rx ry = c)
  /\ (isOutOfBounds c = false
      <-> exists rx ry : spec_float,
            unitInterval_b64 rx /\ unitInterval_b64 ry
            /\ getRandomCoordinate_b64 rx ry = Some c).
Proof.
  rewrite isOutOfBounds_false. split; split.
  - apply getRandomCoordinate_hit.
  - intros (rx & ry & Hx & Hy & <-). now apply getRandomCoordinate_inGrid.
  - intros [Hx Hy]. unfold gridColumns, gridRows in *.
    destruct (drawFor_hit (x c)) as [Ux Ex]; [lia |].
    destruct (drawFor_hit (y c)) as [Uy Ey]; [lia |].
    exists (drawFor (x c)), (drawFor (y c)).
    split; [assumption | split; [assumption |]].
    unfold getRandomCoordinate_b64.
    change (gridRows - 1) with 19. change (gridColumns - 1) with 19.
    rewrite Ex, Ey, Coordinate_eta. reflexivity.
  - intros (rx & ry & Hx & Hy & E).
    destruct (getRandomCoordinate_b64_rational rx ry Hx Hy)
      as (qx & qy & Ux & Uy & E').
    rewrite E in E'. injection E' as ->.
    now apply getRandomCoordinate_inGrid.
Qed.

(** ** The input handler *)

(** X7: the restart.  Space in a state that is not Playing gives the state
    of a first render, whatever the old state held; Space while Playing
    changes nothing. *)
Theorem onKeyDown_restart (s : App) (rx ry : Q) :
  (gameState s <> Playing ->
   onKeyDown s "Space" rx ry = initialState rx ry)
  /\ (gameState s = Playing -> onKeyDown s "Space" rx ry = s).
Proof.
  unfold onKeyDown. split; intros H.
  - destruct (gameState s); [congruence | reflexivity | reflexivity].
  - rewrite H. reflexivity.
Qed.

(** X8: a key event that is not a restart leaves the status, the snake, the
    food and lastDirection as they are, and a key that is none of the four
    arrows leaves the whole state as it is. *)
Theorem onKeyDown_frame (s : App) (code : string) (rx ry : Q) :
  code <> "Space"%string \/ gameState s = Playing ->
  (gameState (onKeyDown s code rx ry) = gameState s
   /\ snake (onKeyDown s code rx ry) = snake s
   /\ food (onKeyDown s code rx ry) = food s
   /\ lastDirection (onKeyDown s code rx ry) = lastDirection s)
  /\ (keyDirection code = None -> onKeyDown s code rx ry = s).
Proof.
  intros Hno.
  assert (Hr : (code =? "Space")%string
               && negb (GameState_eqb (gameState s) Playing) = false).
  { destruct Hno as [Hc | Hp].
    - apply String.eqb_neq in Hc. rewrite Hc. reflexivity.
    - rewrite Hp. apply andb_false_r. }
  unfold onKeyDown, keyDirection. rewrite Hr.
  destruct (code =? "ArrowUp")%string, (code =? "ArrowDown")%string,
    (code =? "ArrowLeft")%string, (code =? "ArrowRight")%string;
    destruct (lastDirection s) eqn:Hlast; simpl;
    (split; [repeat split; assumption
            | intros; solve [reflexivity | discriminate]]).
Qed.

Lemma onKeyDown_frame_witness :
  onKeyDown (mkApp Loss East East [ {| x := 19; y := 4 |} ]
               {| x := 3; y := 7 |}) "KeyW" (1 # 2) (1 # 2)
  = mkApp Loss East East [ {| x := 19; y := 4 |} ] {| x := 3; y := 7 |}.
Proof.
  apply (onKeyDown_frame
           (mkApp Loss East East [ {| x := 19; y := 4 |} ]
              {| x := 3; y := 7 |}) "KeyW"%string (1 # 2) (1 # 2)).
  - left. discriminate.
  - reflexivity.
Defined.

(** ** The tick *)

Lemma gameTick_shape (s s' : App) (rx ry : Q) :
  gameTick s rx ry = Some s' ->
  lastDirection s' = currentDirection s
  /\ currentDirection s' = currentDirection s
  /\ (gameState s' = Loss \/ gameState s' = gameState s)
  /\ List.length (snake s')
     = (if captures s then S (List.length (snake s)) else List.length (snake s))
  /\ food s' = (if captures s then getRandomCoordinate rx ry else food s).
Proof.
  unfold gameTick, captures.
  destruct (snake s) as [| head tl] eqn:Hsnake; [discriminate |]. cbv zeta.
  destruct (isOutOfBounds _); [intros [= <-]; simpl; rewrite Hsnake; tauto |].
  destruct (existsb _ _); [intros [= <-]; simpl; rewrite Hsnake; tauto |].
  destruct (isSameCoordinate _ _); intros [= <-]; simpl.
  - tauto.
  - rewrite length_firstn. simpl List.length.
    repeat split; try tauto. lia.
Qed.

(** X9: what every tick does.  Whatever branch it takes, gameTick commits
    currentDirection as lastDirection and leaves currentDirection alone; the
    status becomes Loss or stays; the snake grows by one segment exactly
    when the tick captures the food and keeps its length otherwise; and the
    food is redrawn exactly then. *)
Theorem gameTick_effects (s s' : App) (rx ry : Q) :
  gameTick s rx ry = Some s' ->
  lastDirection s' = currentDirection s
  /\ currentDirection s' = currentDirection s
  /\ (gameState s' = Loss \/ gameState s' = gameState s)
  /\ List.length (snake s')
     = (if captures s then S (List.length (snake s)) else List.length (snake s))
  /\ food s' = (if captures s then getRandomCoordinate rx ry else food s).
Proof. apply gameTick_shape. Qed.

Lemma gameTick_effects_witness :
  lastDirection (mkApp Loss South South
                   [ {| x := 7; y := 19 |}; {| x := 6; y := 19 |} ]
                   {| x := 2; y := 3 |}) = South
  /\ List.length [ {| x := 7; y := 19 |}; {| x := 6; y := 19 |} ] = 2%nat.
Proof.
  destruct (gameTick_effects
              (mkApp Playing South East
                 [ {| x := 7; y := 19 |}; {| x := 6; y := 19 |} ]
                 {| x := 2; y := 3 |})
              (mkApp Loss South South
                 [ {| x := 7; y := 19 |}; {| x := 6; y := 19 |} ]
                 {| x := 2; y := 3 |})
              (1 # 2) (1 # 2) eq_refl) as (H1 & _ & _ & H4 & _).
  split; [exact H1 | exact H4].
Defined.

(** X10: gameTick fails, by the TypeError on [snake[0]], exactly when the
    snake is empty, which no reachable state has: in a reachable state a
    tick always returns. *)
Theorem gameTick_never_raises :
  (forall (s : App) (rx ry : Q), gameTick s rx ry = None <-> snake s = [])
  /\ (forall (s : App) (rx ry : Q),
        reachable s -> exists s', gameTick s rx ry = Some s').
Proof.
  split.
  - intros s rx ry. split.
    + intros H. destruct (snake s) as [| head tl] eqn:E; [reflexivity |].
      destruct (gameTick_Some s rx ry) as [s' Hs']; [congruence |].
      congruence.
    + intros E. unfold gameTick. rewrite E. reflexivity.
  - intros s rx ry Hr. apply gameTick_Some.
    apply (snakeInv_reachable s Hr).
Qed.

(** ** What every reachable state satisfies *)

Lemma connectedb_firstn (n : nat) (l : list Coordinate) :
  connectedb l = true -> connectedb (firstn n l) = true.
Proof.
  revert n. induction l as [| a [| b t] IH]; intros n H.
  - now rewrite firstn_nil.
  - destruct n as [| n]; [reflexivity |]. simpl. now rewrite firstn_nil.
  - destruct n as [| [| n]]; [reflexivity | reflexivity |].
    change (connectedb (a :: b :: t))
      with (adjacentb a b && connectedb (b :: t)) in H.
    apply andb_true_iff in H. destruct H as [Hab Ht].
    specialize (IH (S n) Ht).
    change (firstn (S (S n)) (a :: b :: t)) with (a :: firstn (S n) (b :: t)).
    change (firstn (S n) (b :: t)) with (b :: firstn n t) in *.
    change (adjacentb a b && connectedb (b :: firstn n t) = true).
    now rewrite Hab, IH.
Qed.

Lemma adjacentb_getNextCoordinate (c : Coordinate) (d : Direction) :
  adjacentb (getNextCoordinate c d) c = true.
Proof.
  unfold adjacentb. destruct c as [cx cy], d; simpl; apply Z.eqb_eq; lia.
Qed.

Lemma connectedb_cons_firstn
    (a head : Coordinate) (tl : list Coordinate) (n : nat) :
  adjacentb a head = true -> connectedb (head :: tl) = true ->
  connectedb (a :: firstn n (head :: tl)) = true.
Proof.
  intros Ha Hc. destruct n as [| n]; [reflexivity |].
  pose proof (connectedb_firstn (S n) (head :: tl) Hc) as Hp.
  change (firstn (S n) (head :: tl)) with (head :: firstn n tl) in *.
  change (adjacentb a head && connectedb (head :: firstn n tl) = true).
  now rewrite Ha, Hp.
Qed.

Lemma connectedb_gameTick (s s' : App) (rx ry : Q) :
  connectedb (snake s) = true -> gameTick s rx ry = Some s' ->
  connectedb (snake s') = true.
Proof.
  intros Hc. unfold gameTick.
  destruct (snake s) as [| head tl] eqn:Hsnake; [discriminate |]. cbv zeta.
  destruct (isOutOfBounds _); [intros [= <-]; simpl; now rewrite Hsnake |].
  destruct (existsb _ _); [intros [= <-]; simpl; now rewrite Hsnake |].
  destruct (isSameCoordinate _ _) eqn:Hfood; intros [= <-].
  - apply isSameCoordinate_true in Hfood.
    cbn [snake setSnake]. rewrite Coordinate_eta, Hfood.
    change (adjacentb (getNextCoordinate head (currentDirection s)) head
            && connectedb (head :: tl) = true).
    now rewrite adjacentb_getNextCoordinate, Hc.
  - cbn [snake setSnake].
    apply connectedb_cons_firstn; [apply adjacentb_getNextCoordinate | exact Hc].
Qed.

Lemma connectedb_reachable (s : App) : reachable s -> connectedb (snake s) = true.
Proof.
  induction 1 as [rx ry _ _ | s s' _ IH Hstep]; [reflexivity |].
  destruct Hstep as [s s' rx ry _ _ _ Htick | s code rx ry _ _].
  - eapply connectedb_gameTick; eassumption.
  - destruct (onKeyDown_cases s code rx ry) as [[E _] | [d [E | E]]];
      rewrite E; [reflexivity | exact IH | exact IH].
Qed.

(** X11: in every reachable state, lost games included, every segment of
    the snake is on the grid: isOutOfBounds is false on each. *)
Theorem snake_on_grid (s : App) :
  reachable s -> Forall (fun c => isOutOfBounds c = false) (snake s).
Proof.
  intros Hr. destruct (snakeInv_reachable s Hr) as (_ & Hg & _).
  rewrite Forall_forall in *. intros c Hc.
  apply isOutOfBounds_false. now apply Hg.
Qed.

(** X12: in every reachable state the snake is a path: each segment is one
    step from the segment after it. *)
Theorem snake_connected (s : App) :
  reachable s -> connectedb (snake s) = true.
Proof. apply connectedb_reachable. Qed.

(** A state reached by capturing the first food. *)
Lemma reachable_two_segments :
  reachable (mkApp Playing East East
               [ {| x := 11; y := 10 |}; {| x := 10; y := 10 |} ]
               {| x := 3; y := 7 |}).
Proof.
  apply (reachable_step (initialState (11 # 20) (1 # 2))).
  - apply reachable_init; unit_interval.
  - apply (step_tick _ _ (3 # 20) (7 # 20));
      [reflexivity | unit_interval | unit_interval | reflexivity].
Qed.

Lemma snake_on_grid_witness :
  Forall (fun c => isOutOfBounds c = false)
         [ {| x := 11; y := 10 |}; {| x := 10; y := 10 |} ].
Proof.
  apply (snake_on_grid
           (mkApp Playing East East
              [ {| x := 11; y := 10 |}; {| x := 10; y := 10 |} ]
              {| x := 3; y := 7 |})).
  exact reachable_two_segments.
Defined.

Lemma snake_connected_witness :
  connectedb [ {| x := 11; y := 10 |}; {| x := 10; y := 10 |} ] = true.
Proof.
  apply (snake_connected
           (mkApp Playing East East
              [ {| x := 11; y := 10 |}; {| x := 10; y := 10 |} ]
              {| x := 3; y := 7 |})).
  exact reachable_two_segments.
Defined.

Lemma reverse_neq (d : Direction) : d <> reverse d.
Proof. destruct d; discriminate. Qed.

Lemma directionInv_gameTick (s s' : App) (rx ry : Q) :
  gameTick s rx ry = Some s' -> directionInv s'.
Proof.
  unfold gameTick.
  destruct (snake s) as [| head tl] eqn:Hsnake; [discriminate |]. cbv zeta.
  destruct (isOutOfBounds _);
    [intros [= <-]; split; [apply reverse_neq | discriminate] |].
  destruct (existsb _ _);
    [intros [= <-]; split; [apply reverse_neq | discriminate] |].
  destruct (isSameCoordinate _ _) eqn:Hfood; intros [= <-];
    (split; [apply reverse_neq |]); intros _ h n t; cbn [snake setSnake
      setFood setLastDirection lastDirection currentDirection].
  - apply isSameCoordinate_true in Hfood.
    rewrite Coordinate_eta, Hfood. intros [= <- <- _]. reflexivity.
  - destruct tl as [| b t']; simpl; [discriminate |].
    intros [= <- <- _]. reflexivity.
Qed.

Lemma directionInv_onKeyDown (s : App) (code : string) (rx ry : Q) :
  directionInv s -> directionInv (onKeyDown s code rx ry).
Proof.
  intros [Hd Hn]. unfold onKeyDown.
  destruct ((code =? "Space")%string && _).
  { split; [discriminate | intros _ h n t; discriminate]. }
  assert (Hset : forall d, d <> reverse (lastDirection s) ->
                           directionInv (setCurrentDirection d s)).
  { intros d Hdn. split; [exact Hdn | exact Hn]. }
  assert (Hsame : directionInv s) by (split; assumption).
  destruct (code =? "ArrowUp")%string, (code =? "ArrowDown")%string,
    (code =? "ArrowLeft")%string, (code =? "ArrowRight")%string;
    destruct (lastDirection s) eqn:Hlast; simpl;
    solve [ exact Hsame | apply Hset; discriminate ].
Qed.

Lemma directionInv_reachable (s : App) : reachable s -> directionInv s.
Proof.
  induction 1 as [rx ry _ _ | s s' _ IH Hstep].
  - split; [discriminate | intros _ h n t; discriminate].
  - destruct Hstep as [s s' rx ry _ _ _ Htick | s code rx ry _ _].
    + eapply directionInv_gameTick; eassumption.
    + now apply directionInv_onKeyDown.
Qed.

(** X13: the reversal guard works.  In every reachable state
    currentDirection is not the reverse of lastDirection, however many keys
    were pressed since the last tick; and while the game is played the next
    coordinate is never the segment right behind the head, so the snake
    cannot run back into its own neck. *)
Theorem no_reversal_into_neck (s : App) :
  reachable s ->
  currentDirection s <> reverse (lastDirection s)
  /\ (gameState s = Playing ->
      forall (head neck : Coordinate) (tl : list Coordinate),
        snake s = head :: neck :: tl ->
        head = getNextCoordinate neck (lastDirection s)
        /\ getNextCoordinate head (currentDirection s) <> neck).
Proof.
  intros Hr. destruct (directionInv_reachable s Hr) as [Hd Hn].
  split; [exact Hd |].
  intros Hp head neck tl Hsnake.
  pose proof (Hn Hp head neck tl Hsnake) as Hhead.
  split; [exact Hhead |].
  intros Hback. apply Hd. rewrite Hhead in Hback.
  destruct neck as [nx ny].
  destruct (lastDirection s), (currentDirection s); simpl in Hback;
    try reflexivity; injection Hback; lia.
Qed.

Lemma no_reversal_into_neck_witness :
  East <> reverse East
  /\ getNextCoordinate {| x := 11; y := 10 |} East <> {| x := 10; y := 10 |}.
Proof.
  destruct (no_reversal_into_neck
              (mkApp Playing East East
                 [ {| x := 11; y := 10 |}; {| x := 10; y := 10 |} ]
                 {| x := 3; y := 7 |}) reachable_two_segments) as [H1 H2].
  split; [exact H1 |].
  apply (H2 eq_refl {| x := 11; y := 10 |} {| x := 10; y := 10 |} [] eq_refl).
Defined.

(** ** The end of a game *)

Lemma gridCellsList_NoDup : NoDup gridCellsList.
Proof.
  assert (E : nodup Coordinate_eq_dec gridCellsList = gridCellsList)
    by (vm_compute; reflexivity).
  rewrite <- E. apply NoDup_nodup.
Qed.

(** X14: a snake that fills the grid can only lose.  When the segments are
    pairwise distinct, all on the grid and 400 in number, every next
    coordinate is off the grid or on the snake, and the tick sets the
    status to Loss: the code has no way to win. *)
Theorem full_grid_loses (s : App) (rx ry : Q) :
  NoDup (snake s) ->
  Forall (fun c => isOutOfBounds c = false) (snake s) ->
  List.length (snake s) = 400%nat ->
  exists s', gameTick s rx ry = Some s' /\ gameState s' = Loss.
Proof.
  intros Hnd Hgrid Hlen.
  destruct (snake s) as [| head tl] eqn:Hsnake; [discriminate |].
  rewrite <- Hsnake in *.
  set (next := getNextCoordinate head (currentDirection s)).
  destruct (isOutOfBounds next) eqn:Hout.
  - eexists. split;
      [apply (gameTick_outOfBounds s rx ry head tl Hsnake Hout) | reflexivity].
  - assert (Hmem : In next (snake s)).
    { apply (@NoDup_length_incl _ (snake s) gridCellsList Hnd).
      - rewrite gridCellsList_length, Hlen. apply le_n.
      - intros c Hc. apply inGrid_gridCellsList, isOutOfBounds_false.
        rewrite Forall_forall in Hgrid. now apply Hgrid.
      - now apply inGrid_gridCellsList, isOutOfBounds_false. }
    eexists. split;
      [apply (gameTick_selfCollision s rx ry head tl Hsnake Hout Hmem)
      | reflexivity].
Qed.

Lemma full_grid_loses_witness :
  exists s',
    gameTick (mkApp Playing South East gridCellsList {| x := 0; y := 0 |})
      (1 # 2) (1 # 2) = Some s'
    /\ gameState s' = Loss.
Proof.
  apply (full_grid_loses
           (mkApp Playing South East gridCellsList {| x := 0; y := 0 |})
           (1 # 2) (1 # 2)).
  - exact gridCellsList_NoDup.
  - apply Forall_forall. intros c Hc.
    apply (proj1 (forallb_forall (fun c => negb (isOutOfBounds c)) gridCellsList)
             eq_refl) in Hc.
    now apply negb_true_iff in Hc.
  - reflexivity.
Defined.

(** X15: a lost game is frozen.  From a state that is not Playing a
    transition either is the restart, which gives the state of a first
    render, or leaves the status, the snake, the food and lastDirection
    untouched: the snake no longer moves until Space is pressed. *)
Theorem lost_game_is_frozen (s s' : App) :
  step s s' -> gameState s <> Playing ->
  (exists rx ry : Q,
      unitInterval rx /\ unitInterval ry /\ s' = initialState rx ry)
  \/ (gameState s' = gameState s /\ snake s' = snake s
      /\ food s' = food s /\ lastDirection s' = lastDirection s).
Proof.
  intros Hstep Hnp.
  destruct Hstep as [s s' rx ry Hp _ _ _ | s code rx ry Hx Hy]; [congruence |].
  destruct (onKeyDown_cases s code rx ry) as [[E _] | [d [E | E]]]; rewrite E.
  - left. exists rx, ry.
    split; [assumption | split; [assumption | reflexivity]].
  - right. repeat split.
  - right. repeat split.
Qed.

Lemma lost_game_is_frozen_witness :
  (exists rx ry : Q,
      unitInterval rx /\ unitInterval ry
      /\ setCurrentDirection North
           (mkApp Loss East East [ {| x := 19; y := 4 |} ] {| x := 3; y := 7 |})
         = initialState rx ry)
  \/ (Loss = Loss
      /\ [ {| x := 19; y := 4 |} ] = [ {| x := 19; y := 4 |} ]
      /\ {| x := 3; y := 7 |} = {| x := 3; y := 7 |}
      /\ East = East).
Proof.
  apply (lost_game_is_frozen
           (mkApp Loss East East [ {| x := 19; y := 4 |} ] {| x := 3; y := 7 |})
           (onKeyDown
              (mkApp Loss East East [ {| x := 19; y := 4 |} ]
                 {| x := 3; y := 7 |}) "ArrowUp" (1 # 2) (1 # 2))).
  - apply step_key; unit_interval.
  - discriminate.
Defined.

(** ** The speed of a running game *)

Lemma getGameSpeed_le (n m : nat) :
  (n <= m)%nat ->
  getGameSpeed m <= getGameSpeed n /\ 50 <= getGameSpeed m <= 200.
Proof.
  intros Hle. rewrite !getGameSpeed_table.
  repeat match goal with
         | |- context [?a <? ?b] => destruct (Z.ltb_spec a b)
         end; lia.
Qed.

(** X16: a tick of a running game either ends it, which stops the timer, or
    keeps the timer running with a delay that is not longer than before and
    lies between 50 and 200 ms: the game never slows down while it is
    played. *)
Theorem tick_never_slows (s s' : App) (rx ry : Q) (d : Z) :
  gameTick s rx ry = Some s' ->
  intervalDelay s = Some d ->
  (gameState s' = Loss /\ intervalDelay s' = None)
  \/ (exists d', intervalDelay s' = Some d' /\ 50 <= d' <= d /\ d <= 200).
Proof.
  intros Htick Hd. unfold intervalDelay in *.
  destruct (gameTick_shape s s' rx ry Htick) as (_ & _ & Hst & Hlen & _).
  destruct (gameState s) eqn:Hs; try discriminate Hd.
  injection Hd as <-.
  destruct Hst as [Hst | Hst]; rewrite Hst; [left; split; reflexivity |].
  right. eexists. split; [reflexivity |].
  assert (Hle : (List.length (snake s) <= List.length (snake s'))%nat)
    by (rewrite Hlen; destruct (captures s); lia).
  destruct (getGameSpeed_le _ _ Hle) as [H1 H2].
  destruct (getGameSpeed_le _ _ (le_n (List.length (snake s)))) as [_ H3].
  lia.
Qed.

Lemma tick_never_slows_witness :
  (Playing = Loss
   /\ intervalDelay
        (mkApp Playing North North (firstn 20 gridCellsList)
           {| x := 5; y := 5 |}) = None)
  \/ (exists d',
         intervalDelay
           (mkApp Playing North North (firstn 20 gridCellsList)
              {| x := 5; y := 5 |}) = Some d'
         /\ 50 <= d' <= 200 /\ 200 <= 200).
Proof.
  apply (tick_never_slows
           (mkApp Playing North East (skipn 1 (firstn 20 gridCellsList))
              {| x := 0; y := 0 |})
           (mkApp Playing North North (firstn 20 gridCellsList)
              {| x := 5; y := 5 |})
           (1 # 4) (1 # 4) 200).
  - vm_compute. reflexivity.
  - reflexivity.
Defined.

(** ** The score *)

Lemma reachable_not_Win (s : App) : reachable s -> gameState s <> Win.
Proof.
  induction 1 as [rx ry _ _ | s s' _ IH Hstep]; [discriminate |].
  destruct Hstep as [s s' rx ry _ _ _ Htick | s code rx ry _ _].
  - destruct (gameTick_gameState _ _ _ _ Htick) as [E | E]; rewrite E;
      [discriminate | assumption].
  - destruct (onKeyDown_gameState s code rx ry) as [E | E]; rewrite E;
      [discriminate | assumption].
Qed.

Lemma played_length (s : App) (n : nat) :
  played s n -> List.length (snake s) = S n.
Proof.
  induction 1 as [rx ry _ _ | s s' n rx ry _ IH _ _ _ Htick
                 | s n code rx ry _ IH _ _].
  - reflexivity.
  - destruct (gameTick_shape s s' rx ry Htick) as (_ & _ & _ & Hlen & _).
    rewrite Hlen, IH. destruct (captures s); reflexivity.
  - unfold onKeyDown, restarts.
    destruct ((code =? "Space")%string && _); [reflexivity |].
    repeat match goal with
           | |- context [if ?b then _ else _] => destruct b
           end; exact IH.
Qed.

Lemma played_reachable (s : App) (n : nat) : played s n -> reachable s.
Proof.
  induction 1 as [rx ry Hx Hy | s s' n rx ry _ IH Hp Hx Hy Htick
                 | s n code rx ry _ IH Hx Hy].
  - now apply reachable_init.
  - apply (reachable_step s); [exact IH |]. now apply (step_tick s s' rx ry).
  - apply (reachable_step s); [exact IH |]. now apply step_key.
Qed.

Lemma reachable_played (s : App) : reachable s -> exists n, played s n.
Proof.
  induction 1 as [rx ry Hx Hy | s s' _ [n IH] Hstep].
  - exists 0%nat. now apply played_init.
  - destruct Hstep as [s s' rx ry Hp Hx Hy Htick | s code rx ry Hx Hy].
    + eexists. now apply (played_tick s s' n rx ry).
    + eexists. now apply (played_key s n code rx ry).
Qed.

(** X17: the points are the foods eaten.  A state reached with [n] foods
    captured since the game was last started has a snake of [n + 1]
    segments, and when it is not Playing its backdrop says that the game is
    lost, never that it is won, and shows [n] points.  Every reachable
    state is reached in this way, and only those are. *)
Theorem points_are_captures :
  (forall (s : App) (n : nat),
      played s n ->
      List.length (snake s) = S n
      /\ (gameState s <> Playing ->
          overlay s = Some ("You lost!"%string, Z.of_nat n)))
  /\ (forall s : App, reachable s <-> exists n, played s n).
Proof.
  split.
  - intros s n Hp. pose proof (played_length s n Hp) as Hlen.
    split; [exact Hlen |]. intros Hnp.
    pose proof (reachable_not_Win s (played_reachable s n Hp)) as Hw.
    unfold overlay. rewrite Hlen.
    destruct (gameState s); try congruence. simpl GameState_eqb.
    cbn [negb]. do 2 f_equal. lia.
  - intros s. split; [apply reachable_played |].
    intros [n Hp]. exact (played_reachable s n Hp).
Qed.

(** ** The rendering *)

Lemma concat_renderGrid (s : App) :
  List.concat (renderGrid s)
  = map (fun c => backgroundColor s (x c) (y c)) renderedCells.
Proof.
  unfold renderGrid, renderedCells.
  generalize (indices gridColumns) as cols. intros cols.
  induction (indices gridRows) as [| rowIndex rows IH]; [reflexivity |].
  cbn [map List.concat flat_map]. rewrite map_app, map_map, IH. reflexivity.
Qed.

Lemma count_occ_map_filter {A : Type} (h : A -> string) (v : string)
    (l : list A) :
  count_occ string_dec (map h l) v
  = List.length (filter (fun a => if string_dec (h a) v then true else false) l).
Proof.
  induction l as [| a l IH]; [reflexivity |]. simpl.
  destruct (string_dec (h a) v); simpl; now rewrite IH.
Qed.

Lemma In_indices (n z : Z) : 0 <= n -> In z (indices n) <-> 0 <= z < n.
Proof.
  intros Hn. unfold indices. rewrite in_map_iff. split.
  - intros (i & <- & Hi). apply in_seq in Hi. lia.
  - intros Hz. exists (Z.to_nat z). split; [lia | apply in_seq; lia].
Qed.

Lemma In_renderedCells (c : Coordinate) : In c renderedCells <-> inGrid c.
Proof.
  unfold renderedCells, inGrid. rewrite in_flat_map. split.
  - intros (r & Hr & Hc). apply in_map_iff in Hc. destruct Hc as (k & <- & Hk).
    apply In_indices in Hr, Hk; [simpl; lia | unfold gridColumns; lia
                                | unfold gridRows; lia].
  - intros [Hx Hy]. exists (y c). split.
    + apply In_indices; [unfold gridRows; lia | assumption].
    + apply in_map_iff. exists (x c). split; [apply Coordinate_eta |].
      apply In_indices; [unfold gridColumns; lia | assumption].
Qed.

Lemma renderedCells_NoDup : NoDup renderedCells.
Proof.
  assert (E : nodup Coordinate_eq_dec renderedCells = renderedCells)
    by (vm_compute; reflexivity).
  rewrite <- E. apply NoDup_nodup.
Qed.

Lemma backgroundColor_black (s : App) (c : Coordinate) :
  backgroundColor s (x c) (y c) = "black"%string <-> In c (snake s).
Proof.
  unfold backgroundColor. cbv zeta. rewrite Coordinate_eta.
  destruct (find (fun a => isSameCoordinate a c) (snake s)) as [a |] eqn:Hf.
  - apply find_some in Hf. destruct Hf as [Hin Ha].
    apply isSameCoordinate_true in Ha. subst a. tauto.
  - split.
    + destruct (isSameCoordinate (food s) c); discriminate.
    + intros Hin. pose proof (find_none _ _ Hf c Hin) as Hc. simpl in Hc.
      apply isSameCoordinate_false in Hc. congruence.
Qed.

Lemma backgroundColor_red (s : App) (c : Coordinate) :
  backgroundColor s (x c) (y c) = "red"%string
  <-> ~ In c (snake s) /\ c = food s.
Proof.
  unfold backgroundColor. cbv zeta. rewrite Coordinate_eta.
  destruct (find (fun a => isSameCoordinate a c) (snake s)) as [a |] eqn:Hf.
  - apply find_some in Hf. destruct Hf as [Hin Ha].
    apply isSameCoordinate_true in Ha. subst a.
    split; [discriminate | tauto].
  - assert (Hni : ~ In c (snake s)).
    { intros Hin. pose proof (find_none _ _ Hf c Hin) as Hc. simpl in Hc.
      apply isSameCoordinate_false in Hc. congruence. }
    destruct (isSameCoordinate (food s) c) eqn:Hfd.
    + apply isSameCoordinate_true in Hfd. split; [now split | reflexivity].
    + apply isSameCoordinate_false in Hfd.
      split; [discriminate | intros [_ E]; congruence].
Qed.

Lemma filter_length_NoDup (f : Coordinate -> bool) (l : list Coordinate) :
  NoDup l -> (forall a, In a l -> inGrid a) ->
  (forall a, f a = true <-> In a l) ->
  List.length (filter f renderedCells) = List.length l.
Proof.
  intros Hnd Hgrid Hf. apply Permutation_length. apply NoDup_Permutation.
  - apply NoDup_filter, renderedCells_NoDup.
  - exact Hnd.
  - intros a. rewrite filter_In, In_renderedCells, Hf. split.
    + tauto.
    + intros Hin. split; [now apply Hgrid | exact Hin].
Qed.

(** X18: what the grid shows of a reachable state.  There are 20 rows of 20
    boxes; the black boxes are as many as the snake has segments; and there
    is one red box when the food is on no segment and none when it is: food
    placed on the snake is hidden under it. *)
Theorem renderGrid_counts (s : App) :
  reachable s ->
  List.length (renderGrid s) = 20%nat
  /\ Forall (fun row => List.length row = 20%nat) (renderGrid s)
  /\ countColor "black" s = List.length (snake s)
  /\ countColor "red" s
     = (if existsb (fun c => isSameCoordinate c (food s)) (snake s)
        then 0%nat else 1%nat).
Proof.
  intros Hr. destruct (snakeInv_reachable s Hr) as (Hnd & Hgrid & _).
  pose proof (food_inGrid_reachable s Hr) as Hfood.
  rewrite Forall_forall in Hgrid.
  split; [reflexivity |]. split; [repeat constructor |].
  unfold countColor. rewrite concat_renderGrid, !count_occ_map_filter. split.
  - apply filter_length_NoDup; [assumption | assumption |].
    intros a. rewrite <- backgroundColor_black.
    destruct (string_dec _ _); split; congruence.
  - destruct (existsb _ (snake s)) eqn:Hex.
    + apply some_isSameCoordinate_true in Hex.
      apply (filter_length_NoDup _ []); [constructor | intros a [] |].
      intros a. simpl. split; [| tauto].
      destruct (string_dec _ _) as [E | E]; [| discriminate].
      apply backgroundColor_red in E. destruct E as [Hni ->]. contradiction.
    + apply some_isSameCoordinate_false in Hex.
      apply (filter_length_NoDup _ [food s]).
      * constructor; [intros [] | constructor].
      * intros a [<- | []]. assumption.
      * intros a. simpl. split.
        -- destruct (string_dec _ _) as [E | E]; [| discriminate].
           apply backgroundColor_red in E. destruct E as [_ ->]. now left.
        -- intros [<- | []]. destruct (string_dec _ _) as [E | E];
             [reflexivity |].
           contradiction E. now apply backgroundColor_red.
Qed.

Lemma renderGrid_counts_witness :
  countColor "black"
    (mkApp Playing East East
       [ {| x := 11; y := 10 |}; {| x := 10; y := 10 |} ] {| x := 3; y := 7 |})
  = 2%nat
  /\ countColor "red"
       (mkApp Playing East East
          [ {| x := 11; y := 10 |}; {| x := 10; y := 10 |} ]
          {| x := 3; y := 7 |})
     = 1%nat.
Proof.
  destruct (renderGrid_counts
              (mkApp Playing East East
                 [ {| x := 11; y := 10 |}; {| x := 10; y := 10 |} ]
                 {| x := 3; y := 7 |}) reachable_two_segments)
    as (_ & _ & Hb & Hred).
  split; [exact Hb | exact Hred].
Defined.

(** ** Several keys between two ticks *)

(** X19: of the arrow keys pressed between two ticks the last accepted one
    wins.  After any key event that is not a restart, an arrow key is
    judged against the same lastDirection as before: if its direction is the
    reverse of lastDirection it changes nothing, and otherwise the state is
    the one that this key alone would have given. *)
Theorem onKeyDown_last_key_wins
    (s : App) (code1 code2 : string) (d2 : Direction) (rx ry rx' ry' : Q) :
  code1 <> "Space"%string \/ gameState s = Playing ->
  keyDirection code2 = Some d2 ->
  onKeyDown (onKeyDown s code1 rx ry) code2 rx' ry'
  = if Direction_eqb d2 (reverse (lastDirection s))
    then onKeyDown s code1 rx ry
    else onKeyDown s code2 rx' ry'.
Proof.
  intros Hno Hk2.
  assert (Hr : (code1 =? "Space")%string
               && negb (GameState_eqb (gameState s) Playing) = false).
  { destruct Hno as [Hc | Hp].
    - apply String.eqb_neq in Hc. rewrite Hc. reflexivity.
    - rewrite Hp. apply andb_false_r. }
  destruct (keyDirection_Some code2 d2 Hk2)
    as [[-> ->] | [[-> ->] | [[-> ->] | [-> ->]]]];
    unfold onKeyDown at 2 3; rewrite Hr;
    destruct (code1 =? "ArrowUp")%string, (code1 =? "ArrowDown")%string,
      (code1 =? "ArrowLeft")%string, (code1 =? "ArrowRight")%string;
    unfold onKeyDown; destruct (lastDirection s) eqn:Hlast; simpl;
    rewrite ?Hlast; reflexivity.
Qed.

Lemma onKeyDown_last_key_wins_witness :
  onKeyDown
    (onKeyDown (mkApp Playing East East [ {| x := 10; y := 10 |} ]
                  {| x := 3; y := 7 |}) "ArrowUp" (1 # 2) (1 # 2))
    "ArrowLeft" (1 # 2) (1 # 2)
  = mkApp Playing North East [ {| x := 10; y := 10 |} ] {| x := 3; y := 7 |}.
Proof.
  apply (onKeyDown_last_key_wins
           (mkApp Playing East East [ {| x := 10; y := 10 |} ]
              {| x := 3; y := 7 |})
           "ArrowUp"%string "ArrowLeft"%string West
           (1 # 2) (1 # 2) (1 # 2) (1 # 2)).
  - left. discriminate.
  - reflexivity.
Defined.
